(** * Parsers of the GSM AT library (gsm_parser.c)

    A shallow embedding of the response parsers of [gsm_parser.c]:
    the cursor based token scanners, the statement parsers that write into
    the device state [gsm] and into the output slot of the active command
    [gsm.msg], and the byte-at-a-time +COPS scan state machine.

    Conventions of the embedding:
    - a C string is a [list ascii]; reading [*p] past the last character
      yields NUL, exactly as the terminating zero of the C string would;
    - [int32_t] arithmetic is written as [Z] with its two's-complement
      wrap-around ([wrap32]), [uint32_t] as [Z] modulo [2^32];
    - a character array is a [list ascii] whose length is its [sizeof];
    - the global [gsm] structure is threaded explicitly: each parser takes
      the state and returns the updated one together with its return value. *)

From Stdlib Require Import ZArith Ascii String.
From stdpp Require Import base list.

Open Scope Z_scope.

(* ------------------------------------------------------------------ *)
(** ** Characters and cursors *)

Definition cursor := list ascii.

Definition NUL : ascii := ascii_of_nat 0.
Definition LF : ascii := ascii_of_nat 10.
Definition CR : ascii := ascii_of_nat 13.
Definition QUOTE : ascii := ascii_of_nat 34.
Definition PLUS : ascii := "+"%char.
Definition MINUS : ascii := "-"%char.
Definition COMMA : ascii := ","%char.
Definition SLASH : ascii := "/"%char.
Definition COLON : ascii := ":"%char.
Definition SPACE : ascii := " "%char.
Definition LPAREN : ascii := "("%char.
Definition RPAREN : ascii := ")"%char.

(** A C string literal as a cursor. *)
Definition s (x : string) : cursor := list_ascii_of_string x.

(** [*p]: the current character, NUL at the end of the string. *)
Definition cur (p : cursor) : ascii :=
  match p with [] => NUL | c :: _ => c end.

(** [p++]. *)
Definition adv (p : cursor) : cursor :=
  match p with [] => [] | _ :: p' => p' end.

(** [str += n]: the fixed-width skip of a "+XXXX: " response prefix. *)
Definition skipn_str (n : nat) (p : cursor) : cursor := List.skipn n p.

Definition code (c : ascii) : Z := Z.of_nat (nat_of_ascii c).

(** [GSM_CHARISNUM] and [GSM_CHARTONUM] of gsm_private.h. *)
Definition GSM_CHARISNUM (c : ascii) : bool :=
  (48 <=? code c) && (code c <=? 57).
Definition GSM_CHARTONUM (c : ascii) : Z := code c - 48.

(** [if ( *p == c) p++;] *)
Definition skip_char (c : ascii) (p : cursor) : cursor :=
  if Ascii.eqb (cur p) c then adv p else p.

(** Two's-complement wrap-around of a 32-bit signed integer. *)
Definition wrap32 (z : Z) : Z := (z + 2 ^ 31) mod 2 ^ 32 - 2 ^ 31.

(** Cast to an unsigned 32-bit integer ([GSM_U32], [GSM_SZ] on a
    32-bit target). *)
Definition to_u32 (z : Z) : Z := z mod 2 ^ 32.

(* ------------------------------------------------------------------ *)
(** ** gsmi_parse_number *)

(** [while (GSM_CHARISNUM( *p)) { val = val * 10 + GSM_CHARTONUM( *p); p++; }] *)
Fixpoint parse_digits (p : cursor) (val : Z) : Z * cursor :=
  match p with
  | c :: p' =>
      if GSM_CHARISNUM c then parse_digits p' (wrap32 (val * 10 + GSM_CHARTONUM c))
      else (val, p)
  | [] => (val, [])
  end.

Definition gsmi_parse_number (str : cursor) : Z * cursor :=
  let p := skip_char QUOTE str in
  let p := skip_char COMMA p in
  let p := skip_char QUOTE p in
  let p := skip_char SLASH p in
  let p := skip_char COLON p in
  let p := skip_char PLUS p in
  let minus := Ascii.eqb (cur p) MINUS in
  let p := if minus then adv p else p in
  let '(val, p) := parse_digits p 0 in
  let p := skip_char COMMA p in
  (if minus then wrap32 (- val) else val, p).

(* ------------------------------------------------------------------ *)
(** ** gsmi_parse_string *)

(** The closing quote of a field: a quote followed by a comma or a line
    terminator. *)
Definition is_field_end (c : ascii) : bool :=
  Ascii.eqb c COMMA || Ascii.eqb c CR || Ascii.eqb c LF.

(** The copy loop of [gsmi_parse_string].  [has_dst] is [dst != NULL],
    [i] the number of characters copied so far, [dst_len] the capacity
    left after reserving the terminator.  Returns the characters written
    to [dst] (in order, from [dst[0]]) and the final cursor. *)
Fixpoint parse_string_loop (p : cursor) (has_dst : bool) (i dst_len : nat)
    (trim : bool) : list ascii * cursor :=
  match p with
  | [] => ([], [])
  | c :: p' =>
      if Ascii.eqb c NUL then ([], p)
      else if Ascii.eqb c QUOTE && is_field_end (cur p') then ([], p')
      else if has_dst then
        if (i <? dst_len)%nat then
          let '(w, q) := parse_string_loop p' has_dst (S i) dst_len trim in
          (c :: w, q)
        else if trim then parse_string_loop p' has_dst i dst_len trim
        else ([], p)
      else parse_string_loop p' has_dst i dst_len trim
  end.

(** [gsmi_parse_string(&src, dst, dst_len, trim)]: returns the return value,
    the bytes written into [dst] ([None] when [dst == NULL]; the terminating
    NUL included) and the new cursor. *)
Definition gsmi_parse_string (src : cursor) (has_dst : bool) (dst_len : nat)
    (trim : bool) : Z * option (list ascii) * cursor :=
  let p := skip_char COMMA src in
  let p := skip_char QUOTE p in
  let dst_len := if (dst_len =? 0)%nat then dst_len else (dst_len - 1)%nat in
  let '(w, q) := parse_string_loop p has_dst 0 dst_len trim in
  (1, (if has_dst then Some (w ++ [NUL]) else None), q).

(** The effect of the written bytes on a destination array. *)
Definition write_buf (buf w : list ascii) : list ascii :=
  w ++ List.skipn (length w) buf.

(** The C string held by a buffer: its characters up to the first NUL. *)
Fixpoint c_str (buf : list ascii) : list ascii :=
  match buf with
  | [] => []
  | c :: b => if Ascii.eqb c NUL then [] else c :: c_str b
  end.

(** [gsmi_parse_string] into the array [buf] ([dst_len = sizeof(buf)]). *)
Definition parse_string_into (src : cursor) (buf : list ascii) (trim : bool)
    : list ascii * cursor :=
  let '(_, w, q) := gsmi_parse_string src true (length buf) trim in
  (match w with Some w => write_buf buf w | None => buf end, q).

(** [gsmi_check_and_trim]. *)
Definition gsmi_check_and_trim (src : cursor) : cursor :=
  let t := cur src in
  if negb (Ascii.eqb t QUOTE) && negb (Ascii.eqb t CR) && negb (Ascii.eqb t COMMA)
  then snd (gsmi_parse_string src false 0 true)
  else src.

(** [strncmp(a, b, n) == 0]. *)
Fixpoint strncmp0 (n : nat) (a b : cursor) : bool :=
  match n with
  | O => true
  | S n' =>
      if negb (Ascii.eqb (cur a) (cur b)) then false
      else if Ascii.eqb (cur a) NUL then true
      else strncmp0 n' (adv a) (adv b)
  end.

(** [strcmp(a, b) == 0]. *)
Definition strcmp0 (a b : cursor) : bool :=
  strncmp0 (S (length a + length b)) a b.

(* ------------------------------------------------------------------ *)
(** ** Device state and the active command *)

(** Operator record of the device state ([gsm_operator_curr_t]); the
    three payload views of its [data] union are kept as separate fields,
    each parser branch writes one view only. *)
Record gsm_operator_curr_t := mk_operator_curr {
  op_mode : Z;
  op_format : Z;
  op_long_name : list ascii;
  op_short_name : list ascii;
  op_num : Z
}.

(** One record of the +COPS=? scan ([gsm_operator_t]). *)
Record gsm_operator_t := mk_operator {
  ops_stat : Z;
  ops_long_name : list ascii;
  ops_short_name : list ascii;
  ops_num : Z
}.

Record gsm_network_t := mk_network {
  net_status : Z;
  net_curr_operator : gsm_operator_curr_t
}.

Inductive gsm_sim_state_t :=
  | GSM_SIM_STATE_NOT_INSERTED
  | GSM_SIM_STATE_READY
  | GSM_SIM_STATE_NOT_READY
  | GSM_SIM_STATE_PIN
  | GSM_SIM_STATE_PUK.

Inductive gsm_sms_status_t :=
  | GSM_SMS_STATUS_ALL
  | GSM_SMS_STATUS_READ
  | GSM_SMS_STATUS_UNREAD
  | GSM_SMS_STATUS_SENT
  | GSM_SMS_STATUS_UNSENT.

Record gsm_sms_mem_t := mk_sms_mem {
  mem_available : Z;
  mem_current : nat;
  mem_used : Z;
  mem_total : Z
}.

Record gsm_datetime_t := mk_datetime {
  dt_date : Z; dt_month : Z; dt_year : Z;
  dt_hours : Z; dt_minutes : Z; dt_seconds : Z
}.

Record gsm_sms_entry_t := mk_sms_entry {
  se_mem : nat;
  se_pos : Z;
  se_status : gsm_sms_status_t;
  se_number : list ascii;
  se_name : list ascii;
  se_datetime : gsm_datetime_t
}.

Record gsm_pb_entry_t := mk_pb_entry {
  pe_pos : Z;
  pe_name : list ascii;
  pe_type : Z;
  pe_number : list ascii
}.

(** [msg.sms_list]: destination array, its length [etr], the write
    cursor [ei] and the optional observer [er] ([None] is NULL, [Some v]
    the value [*er] holds). *)
Record sms_list_t := mk_sms_list {
  sl_mem : nat;
  sl_entries : list gsm_sms_entry_t;
  sl_etr : nat;
  sl_ei : nat;
  sl_er : option nat
}.

(** [msg.pb_list] and [msg.pb_search]. *)
Record pb_list_t := mk_pb_list {
  pl_entries : list gsm_pb_entry_t;
  pl_etr : nat;
  pl_ei : nat;
  pl_er : option nat
}.

(** [msg.cops_scan]: the record array, its length [opsl], the record
    count [opsi] and the optional observer [opf]. *)
Record cops_scan_t := mk_cops_scan {
  cs_ops : list gsm_operator_t;
  cs_opsl : nat;
  cs_opsi : nat;
  cs_opf : option nat
}.

Inductive gsm_cmd_t :=
  | GSM_CMD_CMGL
  | GSM_CMD_CPBR
  | GSM_CMD_CPBF
  | GSM_CMD_COPS_GET
  | GSM_CMD_COPS_GET_OPT
  | GSM_CMD_SIM_INFO
  | GSM_CMD_OTHER.

Definition cmd_eqb (a b : gsm_cmd_t) : bool :=
  match a, b with
  | GSM_CMD_CMGL, GSM_CMD_CMGL | GSM_CMD_CPBR, GSM_CMD_CPBR
  | GSM_CMD_CPBF, GSM_CMD_CPBF | GSM_CMD_COPS_GET, GSM_CMD_COPS_GET
  | GSM_CMD_COPS_GET_OPT, GSM_CMD_COPS_GET_OPT
  | GSM_CMD_SIM_INFO, GSM_CMD_SIM_INFO | GSM_CMD_OTHER, GSM_CMD_OTHER => true
  | _, _ => false
  end.

(** The active command [gsm.msg].  The members of its [msg] union are
    kept as separate fields; every parser reads only the member selected by
    [cmd_def]. *)
Record gsm_msg_t := mk_msg {
  cmd_def : gsm_cmd_t;
  cops_get_curr : option gsm_operator_curr_t;
  sms_list : sms_list_t;
  pb_list : pb_list_t;
  pb_search : pb_list_t;
  cops_scan : cops_scan_t
}.

Inductive gsm_cb_t :=
  | GSM_CB_CPIN (st : gsm_sim_state_t).

(** The global [gsm] structure.  [requests] lists the commands the parsers
    asked to enqueue ([gsm_operator_get], [gsmi_get_sim_info]), [events]
    the callbacks sent with [gsmi_send_cb]. *)
Record gsm_t := mk_gsm {
  network : gsm_network_t;
  sim_state : gsm_sim_state_t;
  sms_mem : list gsm_sms_mem_t;
  msg : option gsm_msg_t;
  requests : list gsm_cmd_t;
  events : list gsm_cb_t
}.

Definition set_network (n : gsm_network_t) (g : gsm_t) : gsm_t :=
  mk_gsm n (sim_state g) (sms_mem g) (msg g) (requests g) (events g).
Definition set_sim_state (st : gsm_sim_state_t) (g : gsm_t) : gsm_t :=
  mk_gsm (network g) st (sms_mem g) (msg g) (requests g) (events g).
Definition set_sms_mem (m : list gsm_sms_mem_t) (g : gsm_t) : gsm_t :=
  mk_gsm (network g) (sim_state g) m (msg g) (requests g) (events g).
Definition set_msg (m : option gsm_msg_t) (g : gsm_t) : gsm_t :=
  mk_gsm (network g) (sim_state g) (sms_mem g) m (requests g) (events g).
Definition add_request (c : gsm_cmd_t) (g : gsm_t) : gsm_t :=
  mk_gsm (network g) (sim_state g) (sms_mem g) (msg g) (requests g ++ [c]) (events g).
Definition send_cb (e : gsm_cb_t) (g : gsm_t) : gsm_t :=
  mk_gsm (network g) (sim_state g) (sms_mem g) (msg g) (requests g) (events g ++ [e]).

Definition set_status (st : Z) (n : gsm_network_t) : gsm_network_t :=
  mk_network st (net_curr_operator n).
Definition set_curr_operator (o : gsm_operator_curr_t) (n : gsm_network_t) : gsm_network_t :=
  mk_network (net_status n) o.

(** The response prefix "+XXXX: " skipped with [str += 7]. *)
Definition skip_prefix (str : cursor) : cursor :=
  if Ascii.eqb (cur str) PLUS then skipn_str 7 str else str.

(* ------------------------------------------------------------------ *)
(** ** Memory identifiers *)

(** [gsm_mem_t] is the enumeration value of a memory; the table
    [gsm_dev_mem_map] of (literal, identifier) pairs and the value of
    [GSM_MEM_UNKNOWN] are configuration of the device, outside this file. *)
Definition gsm_mem_t := nat.

Section MemoryMap.
Variable gsm_dev_mem_map : list (list ascii * gsm_mem_t).
Variable GSM_MEM_UNKNOWN : gsm_mem_t.

(** The table scan of [gsmi_parse_memory]: the first entry whose literal
    is a prefix of [s], with the literal's [strlen]. *)
Fixpoint scan_mem_map (m : list (list ascii * gsm_mem_t)) (s : cursor)
    : option (gsm_mem_t * nat) :=
  match m with
  | [] => None
  | (mem_str, mem) :: m' =>
      if strncmp0 (length mem_str) s mem_str then Some (mem, length mem_str)
      else scan_mem_map m' s
  end.

Definition gsmi_parse_memory (src : cursor) : gsm_mem_t * cursor :=
  let s := skip_char COMMA src in
  let s := skip_char QUOTE s in
  let '(mem, s) :=
    match scan_mem_map gsm_dev_mem_map s with
    | Some (mem, sl) => (mem, List.skipn sl s)
    | None => (GSM_MEM_UNKNOWN, s)
    end in
  let s := if (mem =? GSM_MEM_UNKNOWN)%nat
           then snd (gsmi_parse_string s false 0 true) else s in
  let s := skip_char QUOTE s in
  (mem, s).

(** [*mem_dst |= GSM_U32(1 << GSM_U32(mem))]. *)
Definition mem_bit (mem : gsm_mem_t) : Z := to_u32 (Z.shiftl 1 (Z.of_nat mem)).

(** The do-while loop of [gsmi_parse_memories_string], run for at most
    [fuel] iterations; [None] when they do not suffice. *)
Fixpoint memories_loop (fuel : nat) (str : cursor) (mask : Z) : option (Z * cursor) :=
  match fuel with
  | O => None
  | S fuel' =>
      let '(mem, str) := gsmi_parse_memory str in
      let mask := Z.lor mask (mem_bit mem) in
      if negb (Ascii.eqb (cur str) NUL) && negb (Ascii.eqb (cur str) RPAREN)
      then memories_loop fuel' str mask
      else Some (mask, str)
  end.

(** [gsmi_parse_memories_string(&src, &mem_dst)]: return value, [*mem_dst]
    and the new cursor.  An iteration that does not advance the cursor
    repeats itself forever; the loop is therefore given one iteration more
    than there are characters, and [None] stands for the non-terminating
    run. *)
Definition gsmi_parse_memories_string (src : cursor) : option (Z * Z * cursor) :=
  let str := skip_char COMMA src in
  let str := skip_char LPAREN str in
  match memories_loop (S (length str)) str 0 with
  | None => None
  | Some (mask, str) => Some (1, mask, skip_char RPAREN str)
  end.

Definition set_mem_available (i : nat) (v : Z) (m : list gsm_sms_mem_t) :=
  match m !! i with
  | Some e => <[i := mk_sms_mem v (mem_current e) (mem_used e) (mem_total e)]> m
  | None => m
  end.
Definition set_mem_current_used_total (i : nat) (c : gsm_mem_t) (u t : Z)
    (m : list gsm_sms_mem_t) :=
  match m !! i with
  | Some e => <[i := mk_sms_mem (mem_available e) c u t]> m
  | None => m
  end.
Definition set_mem_used_total (i : nat) (u t : Z) (m : list gsm_sms_mem_t) :=
  match m !! i with
  | Some e => <[i := mk_sms_mem (mem_available e) (mem_current e) u t]> m
  | None => m
  end.

(** Case 0 of [gsmi_parse_cpms]: [for (i = 0; i < 3; i++)] over the
    three memories, written as a loop over [i] from [i] to [2]. *)
Fixpoint cpms_opt_loop (k i : nat) (str : cursor) (m : list gsm_sms_mem_t)
    : option (Z * list gsm_sms_mem_t) :=
  match k with
  | O => Some (1, m)
  | S k' =>
      match gsmi_parse_memories_string str with
      | None => None
      | Some (r, mask, str) =>
          let m := set_mem_available i mask m in
          if r =? 0 then Some (0, m) else cpms_opt_loop k' (S i) str m
      end
  end.

Fixpoint cpms_get_loop (k i : nat) (str : cursor) (m : list gsm_sms_mem_t)
    : list gsm_sms_mem_t :=
  match k with
  | O => m
  | S k' =>
      let '(cur_mem, str) := gsmi_parse_memory str in
      let '(used, str) := gsmi_parse_number str in
      let '(total, str) := gsmi_parse_number str in
      cpms_get_loop k' (S i) str (set_mem_current_used_total i cur_mem used total m)
  end.

Fixpoint cpms_set_loop (k i : nat) (str : cursor) (m : list gsm_sms_mem_t)
    : list gsm_sms_mem_t :=
  match k with
  | O => m
  | S k' =>
      let '(used, str) := gsmi_parse_number str in
      let '(total, str) := gsmi_parse_number str in
      cpms_set_loop k' (S i) str (set_mem_used_total i used total m)
  end.

(** [gsmi_parse_cpms(str, opt)]; [None] when the case-0 loop does not
    terminate. *)
Definition gsmi_parse_cpms (str : cursor) (opt : Z) (g : gsm_t) : option (Z * gsm_t) :=
  let str := skip_prefix str in
  if opt =? 0 then
    match cpms_opt_loop 3 0 str (sms_mem g) with
    | None => None
    | Some (r, m) => Some (r, set_sms_mem m g)
    end
  else if opt =? 1 then Some (1, set_sms_mem (cpms_get_loop 3 0 str (sms_mem g)) g)
  else if opt =? 2 then Some (1, set_sms_mem (cpms_set_loop 3 0 str (sms_mem g)) g)
  else Some (1, g).

End MemoryMap.

(* ------------------------------------------------------------------ *)
(** ** Registration, SIM state and current operator *)

(** Values of [gsm_network_reg_status_t]: the <stat> codes of +CREG. *)
Definition GSM_NETWORK_REG_STATUS_CONNECTED : Z := 1.
Definition GSM_NETWORK_REG_STATUS_CONNECTED_ROAMING : Z := 5.

(** Values of [gsm_operator_format_t]: the <format> codes of +COPS. *)
Definition GSM_OPERATOR_FORMAT_LONG_NAME : Z := 0.
Definition GSM_OPERATOR_FORMAT_SHORT_NAME : Z := 1.
Definition GSM_OPERATOR_FORMAT_NUMBER : Z := 2.
Definition GSM_OPERATOR_FORMAT_INVALID : Z := 3.

(** Result codes of the command API ([gsmr_t]). *)
Inductive gsmr_t := gsmOK | gsmERR | gsmERRMEM.

(** [gsmi_parse_creg(str, skip_first)].  [op_get_res] is the value the
    call [gsm_operator_get(0)] returns: the parser asks for the command and
    the queue accepts or refuses it.  The flag [cb] of the source is
    computed from it and then only tested by an empty block. *)
Definition gsmi_parse_creg (op_get_res : gsmr_t) (str : cursor) (skip_first : bool)
    (g : gsm_t) : Z * gsm_t :=
  let str := skip_prefix str in
  let str := if skip_first then snd (gsmi_parse_number str) else str in
  let '(status, str) := gsmi_parse_number str in
  let g := set_network (set_status status (network g)) g in
  if (status =? GSM_NETWORK_REG_STATUS_CONNECTED)
     || (status =? GSM_NETWORK_REG_STATUS_CONNECTED_ROAMING) then
    let g := add_request GSM_CMD_COPS_GET g in
    let cb := match op_get_res with gsmOK => false | _ => true end in
    (1, g)
  else
    (1, g).

(** [gsmi_parse_cpin(str, send_evt)]; [gsmi_get_sim_info(0)] asks for the
    SIM information command. *)
Definition gsmi_parse_cpin (str : cursor) (send_evt : bool) (g : gsm_t) : Z * gsm_t :=
  let str := skip_prefix str in
  let st :=
    if strncmp0 5 str (s "READY") then GSM_SIM_STATE_READY
    else if strncmp0 9 str (s "NOT READY") then GSM_SIM_STATE_NOT_READY
    else if strncmp0 14 str (s "NOT INSERTED") then GSM_SIM_STATE_NOT_INSERTED
    else if strncmp0 7 str (s "SIM PIN") then GSM_SIM_STATE_PIN
    else if strncmp0 7 str (s "PIN PUK") then GSM_SIM_STATE_PUK
    else GSM_SIM_STATE_NOT_READY in
  let g := set_sim_state st g in
  let g := match sim_state g with
           | GSM_SIM_STATE_READY => add_request GSM_CMD_SIM_INFO g
           | _ => g
           end in
  let g := if send_evt then send_cb (GSM_CB_CPIN (sim_state g)) g else g in
  (1, g).

Definition set_op_mode (v : Z) (o : gsm_operator_curr_t) :=
  mk_operator_curr v (op_format o) (op_long_name o) (op_short_name o) (op_num o).
Definition set_op_format (v : Z) (o : gsm_operator_curr_t) :=
  mk_operator_curr (op_mode o) v (op_long_name o) (op_short_name o) (op_num o).
Definition set_op_long_name (v : list ascii) (o : gsm_operator_curr_t) :=
  mk_operator_curr (op_mode o) (op_format o) v (op_short_name o) (op_num o).
Definition set_op_short_name (v : list ascii) (o : gsm_operator_curr_t) :=
  mk_operator_curr (op_mode o) (op_format o) (op_long_name o) v (op_num o).
Definition set_op_num (v : Z) (o : gsm_operator_curr_t) :=
  mk_operator_curr (op_mode o) (op_format o) (op_long_name o) (op_short_name o) v.

Definition set_cops_get_curr (c : option gsm_operator_curr_t) (m : gsm_msg_t) :=
  mk_msg (cmd_def m) c (sms_list m) (pb_list m) (pb_search m) (cops_scan m).

(** [gsmi_parse_cops(str)].  The source calls [gsmi_parse_number(&str, 1)]
    in the numeric branch; the extra argument has no parameter to bind to
    and the call is the one-argument scanner. *)
Definition gsmi_parse_cops (str : cursor) (g : gsm_t) : Z * gsm_t :=
  let str := skip_prefix str in
  let op := net_curr_operator (network g) in
  let '(mode, str) := gsmi_parse_number str in
  let op := set_op_mode mode op in
  let op :=
    if negb (Ascii.eqb (cur str) CR) then
      let '(format, str) := gsmi_parse_number str in
      let op := set_op_format format op in
      if negb (Ascii.eqb (cur str) CR) then
        if format =? GSM_OPERATOR_FORMAT_LONG_NAME then
          set_op_long_name (fst (parse_string_into str (op_long_name op) true)) op
        else if format =? GSM_OPERATOR_FORMAT_SHORT_NAME then
          set_op_short_name (fst (parse_string_into str (op_short_name op) true)) op
        else if format =? GSM_OPERATOR_FORMAT_NUMBER then
          set_op_num (to_u32 (fst (gsmi_parse_number str))) op
        else op
      else op
    else set_op_format GSM_OPERATOR_FORMAT_INVALID op in
  let g := set_network (set_curr_operator op (network g)) g in
  let g :=
    match msg g with
    | Some m =>
        if cmd_eqb (cmd_def m) GSM_CMD_COPS_GET then
          match cops_get_curr m with
          | Some _ => set_msg (Some (set_cops_get_curr (Some op) m)) g
          | None => g
          end
        else g
    | None => g
    end in
  (1, g).

(* ------------------------------------------------------------------ *)
(** ** SMS and phonebook list entries *)

(** [gsmi_parse_sms_status(&src, &stat)]: return value, [*stat] and the
    new cursor; [t] is the local [char t[11]]. *)
Definition gsmi_parse_sms_status (src : cursor) (stat : gsm_sms_status_t)
    : Z * gsm_sms_status_t * cursor :=
  let '(_, w, src) := gsmi_parse_string src true 11 true in
  let t := match w with Some w => c_str w | None => [] end in
  let st :=
    if strcmp0 t (s "REC UNREAD") then GSM_SMS_STATUS_UNREAD
    else if strcmp0 t (s "REC READ") then GSM_SMS_STATUS_READ
    else if strcmp0 t (s "STO UNSENT") then GSM_SMS_STATUS_UNSENT
    else if strcmp0 t (s "REC SENT") then GSM_SMS_STATUS_SENT
    else GSM_SMS_STATUS_ALL in
  match st with
  | GSM_SMS_STATUS_ALL => (0, stat, src)
  | _ => (1, st, src)
  end.

(** [gsmi_parse_datetime(&src, &dt)].  The members of [gsm_datetime_t]
    are declared outside this file, so the record keeps the scanned values
    unnarrowed, and the year [GSM_U16(2000) + n] as the mathematical sum:
    the C [int] sum agrees with it except for [n > 2^31 - 2001], where it
    overflows. *)
Definition gsmi_parse_datetime (src : cursor) : gsm_datetime_t * cursor :=
  let '(date, src) := gsmi_parse_number src in
  let '(month, src) := gsmi_parse_number src in
  let '(year, src) := gsmi_parse_number src in
  let '(hours, src) := gsmi_parse_number src in
  let '(minutes, src) := gsmi_parse_number src in
  let '(seconds, src) := gsmi_parse_number src in
  (mk_datetime date month (2000 + year) hours minutes seconds,
   gsmi_check_and_trim src).

(** The field-by-field fill of [entries[ei]] by [gsmi_parse_cmgl]. *)
Definition cmgl_fill (mem : gsm_mem_t) (str : cursor) (e : gsm_sms_entry_t)
    : gsm_sms_entry_t :=
  let '(pos, str) := gsmi_parse_number str in
  let '(_, status, str) := gsmi_parse_sms_status str (se_status e) in
  let '(number, str) := parse_string_into str (se_number e) true in
  let '(name, str) := parse_string_into str (se_name e) true in
  let '(dt, _) := gsmi_parse_datetime str in
  mk_sms_entry mem (to_u32 pos) status number name dt.

(** The field-by-field fill of [entries[ei]] by [gsmi_parse_cpbr] and
    [gsmi_parse_cpbf]. *)
Definition pb_fill (str : cursor) (e : gsm_pb_entry_t) : gsm_pb_entry_t :=
  let '(pos, str) := gsmi_parse_number str in
  let '(name, str) := parse_string_into str (pe_name e) true in
  let '(type, str) := gsmi_parse_number str in
  let '(number, _) := parse_string_into str (pe_number e) true in
  mk_pb_entry (to_u32 pos) name type number.

(** [e = &entries[i]; fill e]: the array holds [etr] entries, and the
    guard [ei < etr] keeps the index inside it. *)
Definition update_at {A} (f : A -> A) (i : nat) (l : list A) : list A :=
  match l !! i with
  | Some e => <[i := f e]> l
  | None => l
  end.

Definition set_sms_list (x : sms_list_t) (m : gsm_msg_t) :=
  mk_msg (cmd_def m) (cops_get_curr m) x (pb_list m) (pb_search m) (cops_scan m).
Definition set_pb_list (x : pb_list_t) (m : gsm_msg_t) :=
  mk_msg (cmd_def m) (cops_get_curr m) (sms_list m) x (pb_search m) (cops_scan m).
Definition set_pb_search (x : pb_list_t) (m : gsm_msg_t) :=
  mk_msg (cmd_def m) (cops_get_curr m) (sms_list m) (pb_list m) x (cops_scan m).
Definition set_cops_scan (x : cops_scan_t) (m : gsm_msg_t) :=
  mk_msg (cmd_def m) (cops_get_curr m) (sms_list m) (pb_list m) (pb_search m) x.

(** [gsmi_parse_cmgl(str)]. *)
Definition gsmi_parse_cmgl (str : cursor) (g : gsm_t) : Z * gsm_t :=
  match msg g with
  | Some m =>
      let sl := sms_list m in
      if cmd_eqb (cmd_def m) GSM_CMD_CMGL && (sl_ei sl <? sl_etr sl)%nat then
        let str := skip_prefix str in
        let entries := update_at (cmgl_fill (sl_mem sl) str) (sl_ei sl) (sl_entries sl) in
        let sl := mk_sms_list (sl_mem sl) entries (sl_etr sl) (sl_ei sl) (sl_er sl) in
        (1, set_msg (Some (set_sms_list sl m)) g)
      else (0, g)
  | None => (0, g)
  end.

(** Body shared by [gsmi_parse_cpbr] and [gsmi_parse_cpbf] once the guard
    passed: fill [entries[ei]], [ei++], publish [*er = ei]. *)
Definition pb_add (str : cursor) (pl : pb_list_t) : pb_list_t :=
  let entries := update_at (pb_fill str) (pl_ei pl) (pl_entries pl) in
  let ei := S (pl_ei pl) in
  let er := match pl_er pl with Some _ => Some ei | None => None end in
  mk_pb_list entries (pl_etr pl) ei er.

(** [gsmi_parse_cpbr(str)]. *)
Definition gsmi_parse_cpbr (str : cursor) (g : gsm_t) : Z * gsm_t :=
  match msg g with
  | Some m =>
      let pl := pb_list m in
      if cmd_eqb (cmd_def m) GSM_CMD_CPBR && (pl_ei pl <? pl_etr pl)%nat then
        let str := skip_prefix str in
        (1, set_msg (Some (set_pb_list (pb_add str pl) m)) g)
      else (0, g)
  | None => (0, g)
  end.

(** [gsmi_parse_cpbf(str)]. *)
Definition gsmi_parse_cpbf (str : cursor) (g : gsm_t) : Z * gsm_t :=
  match msg g with
  | Some m =>
      let pl := pb_search m in
      if cmd_eqb (cmd_def m) GSM_CMD_CPBF && (pl_ei pl <? pl_etr pl)%nat then
        let str := skip_prefix str in
        (1, set_msg (Some (set_pb_search (pb_add str pl) m)) g)
      else (0, g)
  | None => (0, g)
  end.

(** The +CPBR lines of one phonebook read, handed to [gsmi_parse_cpbr]
    one after another. *)
Fixpoint cpbr_lines (ls : list cursor) (g : gsm_t) : list Z * gsm_t :=
  match ls with
  | [] => ([], g)
  | l :: ls' =>
      let '(r, g) := gsmi_parse_cpbr l g in
      let '(rs, g) := cpbr_lines ls' g in
      (r :: rs, g)
  end.

(* ------------------------------------------------------------------ *)
(** ** The +COPS=? scan state machine *)

(** The function-local [static] state [u.f] of [gsmi_parse_cops_scan]:
    bracket open [bo], two commas in a row [ccd], the 2-bit term number
    [tn], the 8-bit term position [tp] and the previous character. *)
Record scan_state := mk_scan {
  sc_bo : bool;
  sc_ccd : bool;
  sc_tn : nat;
  sc_tp : nat;
  sc_ch_prev : ascii
}.

(** [memset(&u, 0x00, sizeof(u))]. *)
Definition scan_reset : scan_state := mk_scan false false 0 0 NUL.

Definition set_ccd (b : bool) (u : scan_state) :=
  mk_scan (sc_bo u) b (sc_tn u) (sc_tp u) (sc_ch_prev u).
Definition set_bo (b : bool) (u : scan_state) :=
  mk_scan b (sc_ccd u) (sc_tn u) (sc_tp u) (sc_ch_prev u).
Definition set_ch_prev (c : ascii) (u : scan_state) :=
  mk_scan (sc_bo u) (sc_ccd u) (sc_tn u) (sc_tp u) c.
Definition set_tp (tp : nat) (u : scan_state) :=
  mk_scan (sc_bo u) (sc_ccd u) (sc_tn u) tp (sc_ch_prev u).

Definition set_ops_stat (v : Z) (o : gsm_operator_t) :=
  mk_operator v (ops_long_name o) (ops_short_name o) (ops_num o).
Definition set_ops_long_name (v : list ascii) (o : gsm_operator_t) :=
  mk_operator (ops_stat o) v (ops_short_name o) (ops_num o).
Definition set_ops_short_name (v : list ascii) (o : gsm_operator_t) :=
  mk_operator (ops_stat o) (ops_long_name o) v (ops_num o).
Definition set_ops_num (v : Z) (o : gsm_operator_t) :=
  mk_operator (ops_stat o) (ops_long_name o) (ops_short_name o) v.

Definition set_ops (ops : list gsm_operator_t) (cs : cops_scan_t) :=
  mk_cops_scan ops (cs_opsl cs) (cs_opsi cs) (cs_opf cs).

(** [name[tp++] = ch; name[tp] = 0;] *)
Definition put_name_char (name : list ascii) (tp : nat) (ch : ascii) : list ascii :=
  let tp' := ((tp + 1) mod 256)%nat in
  <[tp' := NUL]> (<[tp := ch]> name).

(** A data character of term [tn] of record [opsi]; returns the new
    [tp] and record array. *)
Definition scan_data (u : scan_state) (ch : ascii) (i : nat)
    (ops : list gsm_operator_t) : nat * list gsm_operator_t :=
  let tp := sc_tp u in
  match sc_tn u with
  | 0%nat =>
      (tp, update_at (fun o => set_ops_stat (to_u32 (10 * ops_stat o + (code ch - 48))) o) i ops)
  | 1%nat =>
      match ops !! i with
      | Some o =>
          if (tp <? length (ops_long_name o) - 1)%nat then
            (((tp + 1) mod 256)%nat,
             <[i := set_ops_long_name (put_name_char (ops_long_name o) tp ch) o]> ops)
          else (tp, ops)
      | None => (tp, ops)
      end
  | 2%nat =>
      match ops !! i with
      | Some o =>
          if (tp <? length (ops_short_name o) - 1)%nat then
            (((tp + 1) mod 256)%nat,
             <[i := set_ops_short_name (put_name_char (ops_short_name o) tp ch) o]> ops)
          else (tp, ops)
      | None => (tp, ops)
      end
  | 3%nat =>
      (tp, update_at (fun o => set_ops_num (to_u32 (10 * ops_num o + (code ch - 48))) o) i ops)
  | _ => (tp, ops)
  end.

(** [gsmi_parse_cops_scan(ch, reset)] with [gsm.msg->msg.cops_scan] as
    [cs]: return value, new static state, new scan slot. *)
Definition gsmi_parse_cops_scan (ch : ascii) (reset : bool) (u : scan_state)
    (cs : cops_scan_t) : Z * scan_state * cops_scan_t :=
  if reset then (1, scan_reset, cs) else
  let first := Ascii.eqb (sc_ch_prev u) NUL in
  if first && Ascii.eqb ch SPACE then (1, u, cs) else
  let u := if first && Ascii.eqb ch COMMA then set_ccd true u else u in
  if sc_ccd u || (cs_opsl cs <=? cs_opsi cs)%nat then (1, u, cs) else
  let '(u, cs) :=
    if sc_bo u then
      if Ascii.eqb ch RPAREN then
        let opsi := S (cs_opsi cs) in
        let opf := match cs_opf cs with Some _ => Some opsi | None => None end in
        (mk_scan false (sc_ccd u) 0 0 (sc_ch_prev u),
         mk_cops_scan (cs_ops cs) (cs_opsl cs) opsi opf)
      else if Ascii.eqb ch COMMA then
        (mk_scan (sc_bo u) (sc_ccd u) ((sc_tn u + 1) mod 4) 0 (sc_ch_prev u), cs)
      else if negb (Ascii.eqb ch QUOTE) then
        let '(tp, ops) := scan_data u ch (cs_opsi cs) (cs_ops cs) in
        (set_tp tp u, set_ops ops cs)
      else (u, cs)
    else
      if Ascii.eqb ch LPAREN then (set_bo true u, cs)
      else if Ascii.eqb ch COMMA && Ascii.eqb (sc_ch_prev u) COMMA then (set_ccd true u, cs)
      else (u, cs) in
  (1, set_ch_prev ch u, cs).

(** Characters fed one at a time, without reset. *)
Fixpoint cops_scan_feed (chs : list ascii) (u : scan_state) (cs : cops_scan_t)
    : scan_state * cops_scan_t :=
  match chs with
  | [] => (u, cs)
  | ch :: chs' =>
      let '(_, u, cs) := gsmi_parse_cops_scan ch false u cs in
      cops_scan_feed chs' u cs
  end.

(* ------------------------------------------------------------------ *)
(** ** Hexadecimal numbers, IP and MAC addresses *)

(** Modelled from the spec: hexadecimal digits, base 16.  The macros
    [GSM_CHARISHEXNUM] and [GSM_CHARHEXTONUM] of gsm_private.h accept
    '0'-'9', 'a'-'f' and 'A'-'F' and give their value, 0 for any other
    character. *)
Definition GSM_CHARISHEXNUM (c : ascii) : bool :=
  GSM_CHARISNUM c || ((97 <=? code c) && (code c <=? 102))
  || ((65 <=? code c) && (code c <=? 70)).
Definition GSM_CHARHEXTONUM (c : ascii) : Z :=
  if GSM_CHARISNUM c then code c - 48
  else if (97 <=? code c) && (code c <=? 102) then code c - 97 + 10
  else if (65 <=? code c) && (code c <=? 70) then code c - 65 + 10
  else 0.

(** [while (GSM_CHARISHEXNUM( *p)) { val = val * 16 + GSM_CHARHEXTONUM( *p); p++; }]
    on the [int32_t] accumulator. *)
Fixpoint parse_hexdigits (p : cursor) (val : Z) : Z * cursor :=
  match p with
  | c :: p' =>
      if GSM_CHARISHEXNUM c then parse_hexdigits p' (wrap32 (val * 16 + GSM_CHARHEXTONUM c))
      else (val, p)
  | [] => (val, [])
  end.

(** [gsmi_parse_hexnumber(&str)]: the [int32_t] accumulator returned as
    [uint32_t]. *)
Definition gsmi_parse_hexnumber (str : cursor) : Z * cursor :=
  let p := skip_char QUOTE str in
  let p := skip_char COMMA p in
  let p := skip_char QUOTE p in
  let '(val, p) := parse_hexdigits p 0 in
  let p := skip_char COMMA p in
  (to_u32 val, p).

(** Store into a [uint8_t]. *)
Definition to_u8 (z : Z) : Z := z mod 2 ^ 8.

(** The unconditional [p++] between the octets of an address.  On the
    terminating NUL it moves the pointer past the end of the string, and
    the C code then reads outside the string: [None] marks that case. *)
Definition step_past (p : cursor) : option cursor :=
  match p with [] => None | _ :: p' => Some p' end.

(** [gsmi_parse_ip(&src, ip)]: return value, the four bytes [ip->ip[0..3]]
    and the new cursor; [None] when a [p++] between the octets steps past
    the end of the string. *)
Definition gsmi_parse_ip (src : cursor) : option (Z * list Z * cursor) :=
  let p := skip_char QUOTE src in
  let '(a, p) := gsmi_parse_number p in
  match step_past p with None => None | Some p =>
  let '(b, p) := gsmi_parse_number p in
  match step_past p with None => None | Some p =>
  let '(c, p) := gsmi_parse_number p in
  match step_past p with None => None | Some p =>
  let '(d, p) := gsmi_parse_number p in
  let p := skip_char QUOTE p in
  Some (1, [to_u8 a; to_u8 b; to_u8 c; to_u8 d], p)
  end end end.

(** [gsmi_parse_mac(&src, mac)]: return value, the six bytes
    [mac->mac[0..5]] and the new cursor; [None] when a [p++] between the
    bytes steps past the end of the string. *)
Definition gsmi_parse_mac (src : cursor) : option (Z * list Z * cursor) :=
  let p := skip_char QUOTE src in
  let '(m0, p) := gsmi_parse_hexnumber p in
  match step_past p with None => None | Some p =>
  let '(m1, p) := gsmi_parse_hexnumber p in
  match step_past p with None => None | Some p =>
  let '(m2, p) := gsmi_parse_hexnumber p in
  match step_past p with None => None | Some p =>
  let '(m3, p) := gsmi_parse_hexnumber p in
  match step_past p with None => None | Some p =>
  let '(m4, p) := gsmi_parse_hexnumber p in
  match step_past p with None => None | Some p =>
  let '(m5, p) := gsmi_parse_hexnumber p in
  let p := skip_char QUOTE p in
  let p := skip_char COMMA p in
  Some (1, [to_u8 m0; to_u8 m1; to_u8 m2; to_u8 m3; to_u8 m4; to_u8 m5], p)
  end end end end end.

(* ------------------------------------------------------------------ *)
(** ** Call state, SMS notifications, SMS read and phonebook memory *)

(** [gsm.call].  The widths of its integer members are declared outside
    this file; they hold the scanner's [int32_t] values here.  [number]
    and [name] are the character arrays, of length [sizeof]. *)
Record gsm_call_t := mk_call {
  call_id : Z;
  call_dir : Z;
  call_state : Z;
  call_type : Z;
  call_is_multipart : Z;
  call_number : list ascii;
  call_addr_type : Z;
  call_name : list ascii
}.

(** The event kinds these parsers pass to [gsmi_send_cb]. *)
Inductive gsm_cb_type_t :=
  | GSM_CB_CALL_CHANGED
  | GSM_CB_SMS_SENT
  | GSM_CB_SMS_RECV.

(** The members of [gsm.cb.cb] these parsers write: the [call_changed]
    pointer ([true] once it points to [gsm.call]), [sms_sent.num] and
    [sms_recv.mem], [sms_recv.pos]. *)
Record gsm_cb_data_t := mk_cb_data {
  cb_call_is_gsm_call : bool;
  cb_sms_sent_num : Z;
  cb_sms_recv_mem : gsm_mem_t;
  cb_sms_recv_pos : Z
}.

(** The part of [gsm] that [gsmi_parse_clcc], [gsmi_parse_cmgs] and
    [gsmi_parse_cmti] touch: the call record, the callback data and the
    kinds of the events sent, oldest first. *)
Record gsm_notify_t := mk_notify {
  nt_call : gsm_call_t;
  nt_cb : gsm_cb_data_t;
  nt_sent : list gsm_cb_type_t
}.

Definition nt_send (t : gsm_cb_type_t) (n : gsm_notify_t) : gsm_notify_t :=
  mk_notify (nt_call n) (nt_cb n) (nt_sent n ++ [t]).
Definition nt_set_call (c : gsm_call_t) (n : gsm_notify_t) : gsm_notify_t :=
  mk_notify c (nt_cb n) (nt_sent n).
Definition nt_set_cb (d : gsm_cb_data_t) (n : gsm_notify_t) : gsm_notify_t :=
  mk_notify (nt_call n) d (nt_sent n).

(** [gsmi_parse_clcc(str, send_evt)]. *)
Definition gsmi_parse_clcc (str : cursor) (send_evt : bool) (n : gsm_notify_t)
    : Z * gsm_notify_t :=
  let str := skip_prefix str in
  let c := nt_call n in
  let '(id, str) := gsmi_parse_number str in
  let '(dir, str) := gsmi_parse_number str in
  let '(state, str) := gsmi_parse_number str in
  let '(type, str) := gsmi_parse_number str in
  let '(mp, str) := gsmi_parse_number str in
  let '(number, str) := parse_string_into str (call_number c) true in
  let '(addr_type, str) := gsmi_parse_number str in
  let '(name, _) := parse_string_into str (call_name c) true in
  let n := nt_set_call (mk_call id dir state type mp number addr_type name) n in
  let n :=
    if send_evt then
      let d := nt_cb n in
      nt_send GSM_CB_CALL_CHANGED
        (nt_set_cb (mk_cb_data true (cb_sms_sent_num d) (cb_sms_recv_mem d)
                      (cb_sms_recv_pos d)) n)
    else n in
  (1, n).

(** Store into a [uint16_t]. *)
Definition to_u16 (z : Z) : Z := z mod 2 ^ 16.

(** [gsmi_parse_cmgs(str, send_evt)]: [num] is a [uint16_t]. *)
Definition gsmi_parse_cmgs (str : cursor) (send_evt : bool) (n : gsm_notify_t)
    : Z * gsm_notify_t :=
  let str := skip_prefix str in
  let num := to_u16 (fst (gsmi_parse_number str)) in
  let n :=
    if send_evt then
      let d := nt_cb n in
      nt_send GSM_CB_SMS_SENT
        (nt_set_cb (mk_cb_data (cb_call_is_gsm_call d) num (cb_sms_recv_mem d)
                      (cb_sms_recv_pos d)) n)
    else n in
  (1, n).

(** [gsmi_parse_cmti(str, send_evt)] for the memory table [map] and the
    value [unk] of [GSM_MEM_UNKNOWN]. *)
Definition gsmi_parse_cmti (map : list (list ascii * gsm_mem_t)) (unk : gsm_mem_t)
    (str : cursor) (send_evt : bool) (n : gsm_notify_t) : Z * gsm_notify_t :=
  let str := skip_prefix str in
  let '(mem, str) := gsmi_parse_memory map unk str in
  let d := nt_cb n in
  let n := nt_set_cb (mk_cb_data (cb_call_is_gsm_call d) (cb_sms_sent_num d) mem
                        (cb_sms_recv_pos d)) n in
  let pos := fst (gsmi_parse_number str) in
  let d := nt_cb n in
  let n := nt_set_cb (mk_cb_data (cb_call_is_gsm_call d) (cb_sms_sent_num d)
                        (cb_sms_recv_mem d) pos) n in
  let n := if send_evt then nt_send GSM_CB_SMS_RECV n else n in
  (1, n).

(** [gsmi_parse_cmgr(str)] on the entry [gsm.msg->msg.sms_read.entry],
    which the source dereferences without testing [gsm.msg]. *)
Definition gsmi_parse_cmgr (str : cursor) (e : gsm_sms_entry_t) : Z * gsm_sms_entry_t :=
  let str := skip_prefix str in
  let '(_, status, str) := gsmi_parse_sms_status str (se_status e) in
  let '(number, str) := parse_string_into str (se_number e) true in
  let '(name, str) := parse_string_into str (se_name e) true in
  let '(dt, _) := gsmi_parse_datetime str in
  (1, mk_sms_entry (se_mem e) (se_pos e) status number name dt).

(** [gsmi_parse_cpbs(str, opt)] on [gsm.pb.mem], which has the members
    of an SMS memory record; [None] when the memory list loop of case 0
    does not terminate. *)
Definition gsmi_parse_cpbs (map : list (list ascii * gsm_mem_t)) (unk : gsm_mem_t)
    (str : cursor) (opt : Z) (pm : gsm_sms_mem_t) : option (Z * gsm_sms_mem_t) :=
  let str := skip_prefix str in
  if opt =? 0 then
    match gsmi_parse_memories_string map unk str with
    | None => None
    | Some (r, mask, _) =>
        Some (r, mk_sms_mem mask (mem_current pm) (mem_used pm) (mem_total pm))
    end
  else if opt =? 1 then
    let '(c, str) := gsmi_parse_memory map unk str in
    let '(used, str) := gsmi_parse_number str in
    let '(total, _) := gsmi_parse_number str in
    Some (1, mk_sms_mem (mem_available pm) c used total)
  else if opt =? 2 then
    let '(used, str) := gsmi_parse_number str in
    let '(total, _) := gsmi_parse_number str in
    Some (1, mk_sms_mem (mem_available pm) (mem_current pm) used total)
  else Some (1, pm).

(* ================================================================== *)
(** * Properties *)

Example parse_number_ex1 :
  gsmi_parse_number (s "-123,rest") = (-123, s "rest").
Proof. reflexivity. Qed.

(** The quoted field "abc" followed by ",next". *)
Definition quoted_abc_next : cursor := QUOTE :: s "abc" ++ QUOTE :: s ",next".

(** ** Quoted strings *)

(** C8 as stated: the cursor would be positioned at 'next'.  The scanner
    stops right after the closing quote, on the comma. *)
Lemma parse_string_abc_cursor_not_next :
  gsmi_parse_string quoted_abc_next true 10 true <> (1, Some (s "abc" ++ [NUL]), s "next").
Proof. vm_compute. congruence. Qed.

(** C8 (amended): on the field "abc" followed by ",next", with capacity
    10 the scanner stores "abc" and stops just past the closing quote, on
    the comma before "next"; with capacity 2 and trimming it stores "a" and
    still stops just past the closing quote; without trimming it stores
    "a" and stops on the first character it could not copy; it returns 1
    each time. *)
Lemma parse_string_abc_cases :
  gsmi_parse_string quoted_abc_next true 10 true = (1, Some (s "abc" ++ [NUL]), s ",next")
  /\ gsmi_parse_string quoted_abc_next true 2 true = (1, Some (s "a" ++ [NUL]), s ",next")
  /\ gsmi_parse_string quoted_abc_next false 0 true = (1, None, s ",next")
  /\ gsmi_parse_string quoted_abc_next true 2 false = (1, Some (s "a" ++ [NUL]), s "bc" ++ QUOTE :: s ",next").
Proof. vm_compute. repeat split. Qed.

(** C9 (code bug): with a non-NULL destination of declared length 0 the
    scanner still writes the terminating NUL, one byte into a buffer of
    zero bytes. *)
Lemma parse_string_zero_capacity_writes_nul :
  gsmi_parse_string quoted_abc_next true 0 true = (1, Some [NUL], s ",next")
  /\ (length [NUL] > 0)%nat.
Proof. vm_compute. split; [reflexivity | lia]. Qed.

(** ** SIM state *)

(** C6 (code bug): the line "+CPIN: NOT INSERTED" as the modem ends it,
    with CR LF, is compared with [strncmp(str, "NOT INSERTED", 14)] over 14
    characters of a 12-character literal, so only a line ending right after
    the phrase matches; the SIM state becomes not-ready, not not-inserted. *)
Lemma cpin_not_inserted_crlf (g : gsm_t) :
  sim_state (snd (gsmi_parse_cpin (s "+CPIN: NOT INSERTED" ++ [CR; LF]) false g))
  = GSM_SIM_STATE_NOT_READY.
Proof. reflexivity. Qed.

(** ** Registration *)

Definition reg_attached (status : Z) : bool :=
  (status =? GSM_NETWORK_REG_STATUS_CONNECTED)
  || (status =? GSM_NETWORK_REG_STATUS_CONNECTED_ROAMING).

(** The status field [gsmi_parse_creg] decodes. *)
Definition creg_status (str : cursor) (skip_first : bool) : Z :=
  let p := skip_prefix str in
  let p := if skip_first then snd (gsmi_parse_number p) else p in
  fst (gsmi_parse_number p).

Definition empty_operator : gsm_operator_curr_t := mk_operator_curr 0 0 [] [] 0.
Definition gsm_init : gsm_t :=
  mk_gsm (mk_network 0 empty_operator) GSM_SIM_STATE_NOT_READY [] None [] [].

(** C4: a failed enqueue should show in the return value.  The code sets
    its local [cb] when [gsm_operator_get] fails, but the block meant to
    process it is empty, so on "+CREG: 0,1" the parser returns 1 and the
    same state whether [gsm_operator_get] succeeds or fails. *)
Lemma creg_enqueue_failure_not_reported :
  gsmi_parse_creg gsmERRMEM (s "+CREG: 0,1") true gsm_init
  = gsmi_parse_creg gsmOK (s "+CREG: 0,1") true gsm_init
  /\ fst (gsmi_parse_creg gsmERRMEM (s "+CREG: 0,1") true gsm_init) = 1.
Proof. split; reflexivity. Qed.

(** [gsmi_parse_creg] stores the decoded status (skipping
    the leading index field when asked), asks for the current-operator
    query exactly when the status is connected or connected-roaming, and
    returns 1 whatever the outcome of that request; the outcome changes
    nothing the caller can observe. *)
Theorem creg_followup_exactly_when_attached (res : gsmr_t) (str : cursor)
    (skip_first : bool) (g : gsm_t) :
  let status := creg_status str skip_first in
  let '(r, g') := gsmi_parse_creg res str skip_first g in
  r = 1
  /\ net_status (network g') = status
  /\ requests g' = requests g ++ (if reg_attached status then [GSM_CMD_COPS_GET] else [])
  /\ gsmi_parse_creg res str skip_first g = gsmi_parse_creg gsmOK str skip_first g.
Proof.
  unfold creg_status, reg_attached, gsmi_parse_creg.
  destruct (gsmi_parse_number (if skip_first then _ else _)) as [st p] eqn:E.
  simpl.
  destruct ((st =? GSM_NETWORK_REG_STATUS_CONNECTED)
            || (st =? GSM_NETWORK_REG_STATUS_CONNECTED_ROAMING)); simpl.
  - repeat split. 
  - repeat split. rewrite app_nil_r. reflexivity.
Qed.

(** ** The +COPS=? scan state machine *)

Definition op_blank : gsm_operator_t := mk_operator 0 (repeat NUL 20) (repeat NUL 10) 0.

(** C2 as stated: "()" after a reset would leave zero records and the
    list-empty flag latched.  With one free record, the closing bracket
    commits a record and the flag stays clear. *)
Lemma cops_scan_empty_brackets_commit_record :
  let '(_, u, cs) := gsmi_parse_cops_scan NUL true scan_reset
                       (mk_cops_scan [op_blank] 1 0 None) in
  let '(u', cs') := cops_scan_feed [LPAREN; RPAREN] u cs in
  cs_opsi cs' = 1%nat /\ sc_ccd u' = false.
Proof. vm_compute. split; reflexivity. Qed.

(** C2 (amended): after a reset, with room for at least one record,
    feeding '(' then ')' commits one record (count 1, published to the
    observer, the record array untouched) and leaves the list-empty flag
    clear; feeding a comma as the first character instead latches the flag
    and leaves the record array, count and observer as they were. *)
Theorem cops_scan_after_reset (ch0 : ascii) (u : scan_state)
    (ops : list gsm_operator_t) (opsl : nat) (opf : option nat) :
  (1 <= opsl)%nat ->
  let '(_, u1, cs1) := gsmi_parse_cops_scan ch0 true u (mk_cops_scan ops opsl 0 opf) in
  cops_scan_feed [LPAREN; RPAREN] u1 cs1
    = (mk_scan false false 0 0 RPAREN,
       mk_cops_scan ops opsl 1 (option_map (fun _ => 1%nat) opf))
  /\ sc_ccd (fst (cops_scan_feed [COMMA] u1 cs1)) = true
  /\ snd (cops_scan_feed [COMMA] u1 cs1) = cs1.
Proof.
  intros H. destruct opsl as [|n]; [lia|].
  destruct opf; vm_compute; repeat split.
Qed.

Lemma cops_scan_step_latched (ch : ascii) (u : scan_state) (cs : cops_scan_t) :
  sc_ccd u = true \/ (cs_opsl cs <= cs_opsi cs)%nat ->
  exists u', gsmi_parse_cops_scan ch false u cs = (1, u', cs)
             /\ (sc_ccd u = true -> sc_ccd u' = true).
Proof.
  intros H. unfold gsmi_parse_cops_scan.
  destruct (Ascii.eqb (sc_ch_prev u) NUL && Ascii.eqb ch SPACE).
  { exists u. split; auto. }
  set (u1 := if Ascii.eqb (sc_ch_prev u) NUL && Ascii.eqb ch COMMA then set_ccd true u else u).
  assert (Hc : sc_ccd u = true -> sc_ccd u1 = true).
  { intros Hu. unfold u1. destruct (_ && _); simpl; auto. }
  assert (Hg : sc_ccd u1 || (cs_opsl cs <=? cs_opsi cs)%nat = true).
  { destruct H as [H|H].
    - rewrite (Hc H). reflexivity.
    - apply Nat.leb_le in H. rewrite H. apply orb_true_r. }
  rewrite Hg. exists u1. split; auto.
Qed.

(** C3: once the list-empty flag is latched or the record array is full,
    every further character (without reset) is consumed with the record
    array, the record count and the published count unchanged, and the
    latched flag stays latched. *)
Theorem cops_scan_latched_ignores (chs : list ascii) (u : scan_state) (cs : cops_scan_t) :
  sc_ccd u = true \/ (cs_opsl cs <= cs_opsi cs)%nat ->
  snd (cops_scan_feed chs u cs) = cs
  /\ (sc_ccd u = true -> sc_ccd (fst (cops_scan_feed chs u cs)) = true).
Proof.
  revert u. induction chs as [|ch chs IH]; intros u H; cbn [cops_scan_feed].
  - auto.
  - destruct (cops_scan_step_latched ch u cs H) as (u' & E & Hc).
    rewrite E.
    assert (H' : sc_ccd u' = true \/ (cs_opsl cs <= cs_opsi cs)%nat).
    { destruct H; auto. }
    destruct (IH u' H') as [IH1 IH2]. split; auto.
Qed.

(** ** Decimal numbers *)

Definition digit_step (v : Z) (c : ascii) : Z := v * 10 + GSM_CHARTONUM c.

(** The mathematical value of a run of decimal digits. *)
Definition digits_value (ds : list ascii) : Z := fold_left digit_step ds 0.

(** The optional leading characters [gsmi_parse_number] skips, in the
    order it tests them: quote, comma, quote, slash, colon, plus. *)
Definition number_lead (q1 c q2 sl co pl : bool) : cursor :=
  (if q1 then [QUOTE] else []) ++ (if c then [COMMA] else [])
  ++ (if q2 then [QUOTE] else []) ++ (if sl then [SLASH] else [])
  ++ (if co then [COLON] else []) ++ (if pl then [PLUS] else []).

Definition is_digit (c : ascii) : Prop := GSM_CHARISNUM c = true.

Lemma wrap32_small (z : Z) : - 2 ^ 31 <= z < 2 ^ 31 -> wrap32 z = z.
Proof. intros H. unfold wrap32. rewrite Z.mod_small; lia. Qed.

Lemma digit_bounds (c : ascii) : is_digit c -> 0 <= GSM_CHARTONUM c <= 9.
Proof.
  unfold is_digit, GSM_CHARISNUM, GSM_CHARTONUM. intros H.
  apply andb_prop in H as [H1 H2]. apply Z.leb_le in H1. apply Z.leb_le in H2. lia.
Qed.

Lemma digit_neq (d x : ascii) : is_digit d -> GSM_CHARISNUM x = false -> Ascii.eqb d x = false.
Proof.
  intros Hd Hx. destruct (Ascii.eqb d x) eqn:E; auto.
  apply Ascii.eqb_eq in E. subst. unfold is_digit in Hd. congruence.
Qed.

Lemma skip_char_id (c : ascii) (p : cursor) : Ascii.eqb (cur p) c = false -> skip_char c p = p.
Proof. unfold skip_char. intros ->. reflexivity. Qed.

Lemma parse_digits_app (ds rest : cursor) (v : Z) :
  Forall is_digit ds -> GSM_CHARISNUM (cur rest) = false ->
  parse_digits (ds ++ rest) v = (fold_left (fun v c => wrap32 (digit_step v c)) ds v, rest).
Proof.
  intros Hds Hr. revert v. induction Hds as [|d ds Hd Hds IH]; intros v; simpl.
  - destruct rest as [|c r]; simpl in *; [reflexivity|]. rewrite Hr. reflexivity.
  - unfold is_digit in Hd. rewrite Hd. apply IH.
Qed.

Lemma fold_digit_ge (ds : cursor) (v : Z) :
  0 <= v -> Forall is_digit ds -> v <= fold_left digit_step ds v.
Proof.
  intros Hv Hds. revert v Hv. induction Hds as [|d ds Hd Hds IH]; intros v Hv; simpl.
  - lia.
  - pose proof (digit_bounds d Hd). unfold digit_step at 2.
    specialize (IH (v * 10 + GSM_CHARTONUM d) ltac:(lia)). unfold digit_step in *. lia.
Qed.

Lemma fold_digit_nowrap (ds : cursor) (v : Z) :
  0 <= v -> Forall is_digit ds -> fold_left digit_step ds v < 2 ^ 31 ->
  fold_left (fun v c => wrap32 (digit_step v c)) ds v = fold_left digit_step ds v.
Proof.
  intros Hv Hds. revert v Hv. induction Hds as [|d ds Hd Hds IH]; intros v Hv Hlt; simpl in *.
  - reflexivity.
  - pose proof (digit_bounds d Hd).
    assert (Hge : digit_step v d <= fold_left digit_step ds (digit_step v d)).
    { apply fold_digit_ge; auto. unfold digit_step. lia. }
    assert (Hpos : 0 <= digit_step v d) by (unfold digit_step; lia).
    rewrite wrap32_small by lia. apply IH; auto.
Qed.

Lemma digits_value_nonneg (ds : cursor) : Forall is_digit ds -> 0 <= digits_value ds.
Proof. intros H. unfold digits_value. apply fold_digit_ge; [lia | exact H]. Qed.

Lemma number_lead_skip (q1 c q2 sl co pl : bool) (T : cursor) :
  Ascii.eqb (cur T) QUOTE = false -> Ascii.eqb (cur T) COMMA = false ->
  Ascii.eqb (cur T) SLASH = false -> Ascii.eqb (cur T) COLON = false ->
  Ascii.eqb (cur T) PLUS = false ->
  skip_char PLUS (skip_char COLON (skip_char SLASH (skip_char QUOTE
    (skip_char COMMA (skip_char QUOTE (number_lead q1 c q2 sl co pl ++ T))))))
  = T.
Proof.
  intros H1 H2 H3 H4 H5.
  destruct q1, c, q2, sl, co, pl; cbn [number_lead app];
    repeat progress (unfold skip_char at 1; simpl; rewrite ?H1, ?H2, ?H3, ?H4, ?H5);
    reflexivity.
Qed.

Lemma nonskip_of_digit (d : ascii) : is_digit d ->
  Ascii.eqb d QUOTE = false /\ Ascii.eqb d COMMA = false /\ Ascii.eqb d SLASH = false
  /\ Ascii.eqb d COLON = false /\ Ascii.eqb d PLUS = false /\ Ascii.eqb d MINUS = false.
Proof. intros H. repeat split; apply digit_neq; auto. Qed.

Lemma nonskip_of_not_in (x : ascii) :
  ~ In x [QUOTE; COMMA; SLASH; COLON; PLUS; MINUS] ->
  Ascii.eqb x QUOTE = false /\ Ascii.eqb x COMMA = false /\ Ascii.eqb x SLASH = false
  /\ Ascii.eqb x COLON = false /\ Ascii.eqb x PLUS = false /\ Ascii.eqb x MINUS = false.
Proof.
  intros H.
  assert (F : forall y, In y [QUOTE; COMMA; SLASH; COLON; PLUS; MINUS] -> Ascii.eqb x y = false).
  { intros y Hy. destruct (Ascii.eqb x y) eqn:E; auto. apply Ascii.eqb_eq in E. subst. tauto. }
  repeat split; apply F; simpl; tauto.
Qed.

(** C7 as stated: the digit run "2147483648" does not fit the [int32_t]
    result; its value wraps around to -2147483648. *)
Lemma parse_number_overflow :
  gsmi_parse_number (s "2147483648") = (-2147483648, [])
  /\ digits_value (s "2147483648") = 2147483648.
Proof. split; reflexivity. Qed.

(** The signed-run reading of [gsmi_parse_number], shared by the
    decimal and operator properties. *)
Lemma parse_number_signed_run (q1 c q2 sl co pl minus : bool) (ds rest : cursor) :
  Forall is_digit ds ->
  GSM_CHARISNUM (cur rest) = false ->
  (ds <> [] \/ minus = true \/ ~ In (cur rest) [QUOTE; COMMA; SLASH; COLON; PLUS; MINUS]) ->
  digits_value ds < 2 ^ 31 ->
  gsmi_parse_number (number_lead q1 c q2 sl co pl ++ (if minus then [MINUS] else []) ++ ds ++ rest)
  = (if minus then - digits_value ds else digits_value ds, skip_char COMMA rest).
Proof.
  intros Hds Hr Hhead Hlt.
  pose proof (digits_value_nonneg ds Hds) as Hnn.
  set (T := (if minus then [MINUS] else []) ++ ds ++ rest).
  assert (HT : Ascii.eqb (cur T) QUOTE = false /\ Ascii.eqb (cur T) COMMA = false
               /\ Ascii.eqb (cur T) SLASH = false /\ Ascii.eqb (cur T) COLON = false
               /\ Ascii.eqb (cur T) PLUS = false
               /\ (minus = false -> Ascii.eqb (cur T) MINUS = false)).
  { unfold T. destruct minus.
    - simpl. repeat split; discriminate.
    - destruct ds as [|d ds'].
      + destruct Hhead as [Hh|[Hh|Hh]]; [congruence|discriminate|].
        simpl. pose proof (nonskip_of_not_in _ Hh). tauto.
      + inversion Hds; subst. simpl. pose proof (nonskip_of_digit d ltac:(assumption)). tauto. }
  destruct HT as (H1 & H2 & H3 & H4 & H5 & H6).
  unfold gsmi_parse_number. cbv zeta.
  rewrite (number_lead_skip q1 c q2 sl co pl T H1 H2 H3 H4 H5).
  destruct minus.
  - unfold T. cbn [app cur adv]. change (Ascii.eqb MINUS MINUS) with true. cbv iota.
    rewrite parse_digits_app by assumption.
    rewrite fold_digit_nowrap by first [lia | assumption].
    change (fold_left digit_step ds 0) with (digits_value ds).
    rewrite wrap32_small by lia. reflexivity.
  - rewrite (H6 eq_refl). unfold T. cbn [app].
    rewrite parse_digits_app by assumption.
    rewrite fold_digit_nowrap by first [lia | assumption]. reflexivity.
Qed.

(** C7 (amended): for an input made of the optional leading characters
    (quote, comma, quote, slash, colon, plus, in that order), an optional
    minus sign, a maximal run of decimal digits whose value is below
    [2^31], and a remainder, [gsmi_parse_number] returns the signed value
    of the run (0 for an empty run) and leaves the cursor on the remainder,
    past one leading comma of it if there is one.  When the run is empty and
    there is no sign, the remainder must not start with one of the skipped
    characters (else it belongs to the leading part). *)
Theorem parse_number_exact (q1 c q2 sl co pl minus : bool) (ds rest : cursor) :
  Forall is_digit ds ->
  GSM_CHARISNUM (cur rest) = false ->
  (ds <> [] \/ minus = true \/ ~ In (cur rest) [QUOTE; COMMA; SLASH; COLON; PLUS; MINUS]) ->
  digits_value ds < 2 ^ 31 ->
  gsmi_parse_number (number_lead q1 c q2 sl co pl ++ (if minus then [MINUS] else []) ++ ds ++ rest)
  = (if minus then - digits_value ds else digits_value ds, skip_char COMMA rest).
Proof.
  exact (parse_number_signed_run q1 c q2 sl co pl minus ds rest).
Qed.

(** A run of digits followed by a non-digit, whatever its value. *)
Lemma parse_number_digits (ds rest : cursor) :
  ds <> [] -> Forall is_digit ds -> GSM_CHARISNUM (cur rest) = false ->
  gsmi_parse_number (ds ++ rest)
  = (fold_left (fun v c => wrap32 (digit_step v c)) ds 0, skip_char COMMA rest).
Proof.
  intros Hne Hds Hr. destruct ds as [|d ds']; [congruence|].
  inversion Hds as [|? ? Hd Hds']; subst.
  destruct (nonskip_of_digit d Hd) as (H1 & H2 & H3 & H4 & H5 & H6).
  unfold gsmi_parse_number. cbv zeta.
  pose proof (number_lead_skip false false false false false false ((d :: ds') ++ rest)
                H1 H2 H3 H4 H5) as E.
  cbn [number_lead app] in E. cbn [app]. rewrite E.
  cbn [cur]. rewrite H6. cbv iota.
  rewrite (app_comm_cons ds' rest d).
  rewrite parse_digits_app by assumption. reflexivity.
Qed.

(** ** Current operator *)

(** A synthetic "+COPS: <mode>,2,"<code>"" line, format 2 being the
    numeric format. *)
Definition cops_numeric_line (mode_ds code_ds : cursor) : cursor :=
  s "+COPS: " ++ mode_ds ++ COMMA :: s "2" ++ COMMA :: QUOTE :: code_ds ++ [QUOTE; CR; LF].

Lemma network_set_msg (m : option gsm_msg_t) (g : gsm_t) :
  network (set_msg m g) = network g.
Proof. reflexivity. Qed.

(** C5: for every numeric operator code (a non-empty digit run whose
    value fits the [int32_t] scanner, as every 5- or 6-digit code does),
    parsing the line "+COPS: <mode>,2,"<code>"" leaves the device-state
    current operator with the numeric format tag and that code in its
    numeric payload. *)
Theorem cops_numeric_roundtrip (mode_ds code_ds : cursor) (g : gsm_t) :
  mode_ds <> [] -> Forall is_digit mode_ds ->
  code_ds <> [] -> Forall is_digit code_ds -> digits_value code_ds < 2 ^ 31 ->
  let op := net_curr_operator (network (snd (gsmi_parse_cops (cops_numeric_line mode_ds code_ds) g))) in
  op_format op = GSM_OPERATOR_FORMAT_NUMBER /\ op_num op = digits_value code_ds.
Proof.
  intros Hm Hmd Hc Hcd Hlt.
  pose proof (parse_number_signed_run true false false false false false false code_ds [QUOTE; CR; LF]
                Hcd eq_refl (or_introl Hc) Hlt) as E.
  cbn [number_lead app] in E.
  pose proof (digits_value_nonneg code_ds Hcd) as Hnn.
  unfold gsmi_parse_cops, cops_numeric_line. cbv zeta.
  change (skip_prefix (s "+COPS: " ++ ?x)) with x.
  rewrite parse_number_digits by (auto; reflexivity).
  change (skip_char COMMA (COMMA :: ?x)) with x.
  change (gsmi_parse_number (s "2" ++ COMMA :: ?x)) with (2, x).
  cbn -[gsmi_parse_number parse_string_into].
  rewrite E.
  assert (Hu : to_u32 (digits_value code_ds) = digits_value code_ds).
  { unfold to_u32. rewrite Z.mod_small; lia. }
  destruct (msg g) as [m|]; [destruct (cmd_eqb (cmd_def m) GSM_CMD_COPS_GET);
    [destruct (cops_get_curr m)|]|]; cbv -[digits_value to_u32]; rewrite ?Hu; auto.
Qed.

(** ** SMS and phonebook list entries *)

Lemma cmd_eqb_true (a b : gsm_cmd_t) : cmd_eqb a b = true <-> a = b.
Proof. destruct a, b; simpl; split; congruence. Qed.

Lemma update_at_insert {A} (d : A) (f : A -> A) (i : nat) (l : list A) :
  exists e, update_at f i l = <[i := e]> l.
Proof.
  unfold update_at. destruct (l !! i) as [x|] eqn:E.
  - exists (f x). reflexivity.
  - exists d. rewrite list_insert_ge; [reflexivity|].
    apply lookup_ge_None in E. lia.
Qed.

(** The guard of a list-entry parser fails: no active command, an active
    command of another kind, or a write cursor at the capacity. *)
Definition declines (c : gsm_cmd_t) (ei_of etr_of : gsm_msg_t -> nat) (g : gsm_t) : Prop :=
  match msg g with
  | None => True
  | Some m => cmd_def m <> c \/ (etr_of m <= ei_of m)%nat
  end.

Lemma guard_false (c : gsm_cmd_t) (m : gsm_msg_t) (ei etr : nat) :
  cmd_def m <> c \/ (etr <= ei)%nat -> cmd_eqb (cmd_def m) c && (ei <? etr)%nat = false.
Proof.
  intros [H|H].
  - destruct (cmd_eqb (cmd_def m) c) eqn:E; [|reflexivity].
    apply cmd_eqb_true in E. congruence.
  - rewrite (proj2 (Nat.ltb_ge ei etr) H). apply andb_false_r.
Qed.

Lemma guard_true (c : gsm_cmd_t) (m : gsm_msg_t) (ei etr : nat) :
  cmd_def m = c -> (ei < etr)%nat -> cmd_eqb (cmd_def m) c && (ei <? etr)%nat = true.
Proof.
  intros H1 H2. rewrite H1. rewrite (proj2 (cmd_eqb_true c c) eq_refl).
  rewrite (proj2 (Nat.ltb_lt ei etr) H2). reflexivity.
Qed.

Definition pb_blank : gsm_pb_entry_t := mk_pb_entry 0 (repeat NUL 20) 0 (repeat NUL 20).
Definition sms_blank : gsm_sms_entry_t :=
  mk_sms_entry 0 0 GSM_SMS_STATUS_ALL (repeat NUL 20) (repeat NUL 20) (mk_datetime 0 0 0 0 0 0).
Definition pb_list_empty : pb_list_t := mk_pb_list [] 0 0 None.
Definition cops_scan_empty : cops_scan_t := mk_cops_scan [] 0 0 None.

(** A CMGL listing into two free entries. *)
Definition gsm_cmgl_active : gsm_t :=
  set_msg (Some (mk_msg GSM_CMD_CMGL None (mk_sms_list 0 [sms_blank; sms_blank] 2 0 None)
                        pb_list_empty pb_list_empty cops_scan_empty)) gsm_init.

(** C1 as stated: every accepted line would advance the write cursor.
    [gsmi_parse_cmgl] accepts a line and fills entry 0, and the cursor
    stays at 0. *)
Lemma cmgl_keeps_write_cursor :
  let '(r, g') := gsmi_parse_cmgl (s "+CMGL: 1,") gsm_cmgl_active in
  r = 1 /\ option_map (fun m => sl_ei (sms_list m)) (msg g') = Some 0%nat
  /\ option_map (fun m => map se_pos (sl_entries (sms_list m))) (msg g') = Some [1; 0].
Proof. vm_compute. repeat split. Qed.

(** C1 (amended): each of [gsmi_parse_cpbr], [gsmi_parse_cpbf] and
    [gsmi_parse_cmgl] returns 0 and changes nothing when there is no active
    command of its kind or its write cursor has reached the capacity.
    Otherwise it returns 1 and writes one entry, the one at the write
    cursor.  [gsmi_parse_cpbr] and [gsmi_parse_cpbf] also advance the write
    cursor by one and publish it to the observer.  [gsmi_parse_cmgl] leaves
    the cursor where it is. *)
Theorem list_entry_parsers (str : cursor) (g : gsm_t) :
  (declines GSM_CMD_CPBR (fun m => pl_ei (pb_list m)) (fun m => pl_etr (pb_list m)) g ->
   gsmi_parse_cpbr str g = (0, g))
  /\ (declines GSM_CMD_CPBF (fun m => pl_ei (pb_search m)) (fun m => pl_etr (pb_search m)) g ->
      gsmi_parse_cpbf str g = (0, g))
  /\ (declines GSM_CMD_CMGL (fun m => sl_ei (sms_list m)) (fun m => sl_etr (sms_list m)) g ->
      gsmi_parse_cmgl str g = (0, g))
  /\ (forall m, msg g = Some m -> cmd_def m = GSM_CMD_CPBR ->
      let pl := pb_list m in (pl_ei pl < pl_etr pl)%nat ->
      exists e, gsmi_parse_cpbr str g
        = (1, set_msg (Some (set_pb_list
               (mk_pb_list (<[pl_ei pl := e]> (pl_entries pl)) (pl_etr pl) (S (pl_ei pl))
                  (option_map (fun _ => S (pl_ei pl)) (pl_er pl))) m)) g))
  /\ (forall m, msg g = Some m -> cmd_def m = GSM_CMD_CPBF ->
      let pl := pb_search m in (pl_ei pl < pl_etr pl)%nat ->
      exists e, gsmi_parse_cpbf str g
        = (1, set_msg (Some (set_pb_search
               (mk_pb_list (<[pl_ei pl := e]> (pl_entries pl)) (pl_etr pl) (S (pl_ei pl))
                  (option_map (fun _ => S (pl_ei pl)) (pl_er pl))) m)) g))
  /\ (forall m, msg g = Some m -> cmd_def m = GSM_CMD_CMGL ->
      let sl := sms_list m in (sl_ei sl < sl_etr sl)%nat ->
      exists e, gsmi_parse_cmgl str g
        = (1, set_msg (Some (set_sms_list
               (mk_sms_list (sl_mem sl) (<[sl_ei sl := e]> (sl_entries sl)) (sl_etr sl)
                  (sl_ei sl) (sl_er sl)) m)) g)).
Proof.
  unfold declines, gsmi_parse_cpbr, gsmi_parse_cpbf, gsmi_parse_cmgl.
  refine (conj _ (conj _ (conj _ (conj _ (conj _ _))))).
  - destruct (msg g) as [m|]; [|reflexivity]. intros H. rewrite guard_false; auto.
  - destruct (msg g) as [m|]; [|reflexivity]. intros H. rewrite guard_false; auto.
  - destruct (msg g) as [m|]; [|reflexivity]. intros H. rewrite guard_false; auto.
  - intros m Hm Hc Hlt. rewrite Hm. rewrite guard_true by assumption.
    set (pl := pb_list m) in *.
    destruct (update_at_insert pb_blank (pb_fill (skip_prefix str)) (pl_ei pl) (pl_entries pl))
      as [e He].
    exists e. unfold pb_add. rewrite He. destruct (pl_er pl); reflexivity.
  - intros m Hm Hc Hlt. rewrite Hm. rewrite guard_true by assumption.
    set (pl := pb_search m) in *.
    destruct (update_at_insert pb_blank (pb_fill (skip_prefix str)) (pl_ei pl) (pl_entries pl))
      as [e He].
    exists e. unfold pb_add. rewrite He. destruct (pl_er pl); reflexivity.
  - intros m Hm Hc Hlt. rewrite Hm. rewrite guard_true by assumption.
    set (sl := sms_list m) in *.
    destruct (update_at_insert sms_blank (cmgl_fill (sl_mem sl) (skip_prefix str)) (sl_ei sl)
                (sl_entries sl)) as [e He].
    exists e. rewrite He. reflexivity.
Qed.

(** ** Memory lists *)

Lemma length_cur_nul (x : cursor) : length x = 0%nat -> cur x = NUL.
Proof. destruct x; simpl; [reflexivity | discriminate]. Qed.

Lemma skip_char_length (c : ascii) (p : cursor) : (length (skip_char c p) <= length p)%nat.
Proof. unfold skip_char. destruct (Ascii.eqb (cur p) c); destruct p; simpl; lia. Qed.

Lemma skip_char_hit_length (c : ascii) (p : cursor) :
  Ascii.eqb (cur p) c = true -> c <> NUL -> (length (skip_char c p) < length p)%nat.
Proof.
  unfold skip_char. intros H Hc. rewrite H. destruct p as [|x p]; cbn [cur adv length] in *.
  - apply Ascii.eqb_eq in H. congruence.
  - lia.
Qed.

Lemma skip_char_cases (c : ascii) (p : cursor) :
  skip_char c p = p \/ (length (skip_char c p) < length p)%nat.
Proof.
  unfold skip_char. destruct (Ascii.eqb (cur p) c); [|auto].
  destruct p; cbn [adv length]; auto.
Qed.

Lemma string_loop_nodst (p : cursor) (i dl : nat) (trim : bool) :
  let q := snd (parse_string_loop p false i dl trim) in
  (length q <= length p)%nat /\ (cur p <> NUL -> (length q < length p)%nat)
  /\ (cur p = NUL -> q = p).
Proof.
  revert i. induction p as [|c p IH]; intros i; cbn [parse_string_loop].
  - cbn. split; [lia | split; [intros H; congruence | reflexivity]].
  - destruct (Ascii.eqb c NUL) eqn:En.
    + apply Ascii.eqb_eq in En. subst. cbn [snd cur].
      split; [|split]; intros; cbn [length] in *; try lia; congruence.
    + assert (c <> NUL) by (intros ->; rewrite Ascii.eqb_refl in En; discriminate).
      destruct (Ascii.eqb c QUOTE && is_field_end (cur p)); cbn [snd cur length].
      * split; [|split]; intros; cbn [length] in *; try lia; congruence.
      * destruct (IH i) as [H1 _].
        split; [|split]; intros; cbn [length] in *; try lia; congruence.
Qed.

Lemma parse_string_skip (src : cursor) :
  let q := snd (gsmi_parse_string src false 0 true) in
  (length q <= length src)%nat /\ (cur src <> NUL -> (length q < length src)%nat)
  /\ (cur src = NUL -> q = src).
Proof.
  unfold gsmi_parse_string. cbv zeta.
  set (p := skip_char QUOTE (skip_char COMMA src)).
  assert (Hp : (length p <= length src)%nat).
  { unfold p. pose proof (skip_char_length COMMA src).
    pose proof (skip_char_length QUOTE (skip_char COMMA src)). lia. }
  change (if (0 =? 0)%nat then 0%nat else (0 - 1)%nat) with 0%nat.
  destruct (parse_string_loop p false 0 0 true) as [w q] eqn:E. cbn [snd].
  pose proof (string_loop_nodst p 0 0 true) as Hl. rewrite E in Hl. cbn [snd] in Hl.
  destruct Hl as (H1 & H2 & H3).
  repeat split.
  - lia.
  - intros Hs. destruct (Ascii.eqb (cur p) NUL) eqn:Ep.
    + apply Ascii.eqb_eq in Ep. rewrite (H3 Ep).
      (* [p] starts with NUL while [src] does not: a character was skipped *)
      destruct (skip_char_cases COMMA src) as [E1|E1];
        destruct (skip_char_cases QUOTE (skip_char COMMA src)) as [E2|E2];
        unfold p in *.
      * exfalso. apply Hs. rewrite E2, E1 in Ep. exact Ep.
      * pose proof (skip_char_length COMMA src). lia.
      * rewrite E2. exact E1.
      * pose proof (skip_char_length COMMA src). lia.
    + assert (cur p <> NUL) by (intros Hq; rewrite Hq, Ascii.eqb_refl in Ep; discriminate).
      specialize (H2 H). lia.
  - intros Hs. assert (Hp' : p = src).
    { assert (Ascii.eqb NUL COMMA = false) as Ec by reflexivity.
      assert (Ascii.eqb NUL QUOTE = false) as Eq by reflexivity.
      unfold p, skip_char. rewrite Hs, Ec. cbv iota. rewrite Hs, Eq. reflexivity. }
    rewrite <- Hp'. apply H3. rewrite Hp'. exact Hs.
Qed.

Lemma skip_char_nul (c : ascii) (p : cursor) :
  cur p = NUL -> c <> NUL -> skip_char c p = p.
Proof.
  intros Hp Hc. unfold skip_char. rewrite Hp.
  destruct (Ascii.eqb NUL c) eqn:E; [|reflexivity].
  apply Ascii.eqb_eq in E. congruence.
Qed.

Lemma COMMA_not_NUL : COMMA <> NUL.
Proof. discriminate. Qed.

Lemma QUOTE_not_NUL : QUOTE <> NUL.
Proof. discriminate. Qed.

Lemma cur_not_nul_cons (p : cursor) : cur p <> NUL -> p <> [].
Proof. intros H ->. apply H. reflexivity. Qed.

Lemma skipn_length_lt (n : nat) (p : cursor) :
  (1 <= n)%nat -> p <> [] -> (length (List.skipn n p) < length p)%nat.
Proof.
  intros Hn Hp. rewrite List.length_skipn.
  destruct p; [congruence|]. cbn [length]. lia.
Qed.

Lemma scan_mem_map_some (m : list (list ascii * gsm_mem_t)) (x : cursor)
    (mem : gsm_mem_t) (sl : nat) :
  scan_mem_map m x = Some (mem, sl) -> exists l, In (l, mem) m /\ sl = length l.
Proof.
  induction m as [|[l v] m IH]; cbn [scan_mem_map]; [discriminate|].
  destruct (strncmp0 (length l) x l).
  - intros H. injection H as <- <-. exists l. split; [left|]; reflexivity.
  - intros H. destruct (IH H) as (l' & Hin & ->). exists l'. split; [right|]; auto.
Qed.

Section MemoryProgress.
Variable map : list (list ascii * gsm_mem_t).
Variable unk : gsm_mem_t.
Hypothesis map_ok : Forall (fun e => fst e <> [] /\ (snd e < 32)%nat) map.
Hypothesis unk_ok : (unk < 32)%nat.

(** One call of [gsmi_parse_memory] consumes at least one character,
    unless it stands on the terminating NUL, where it does not move. *)
Lemma parse_memory_progress (str : cursor) :
  let str1 := snd (gsmi_parse_memory map unk str) in
  (length str1 < length str)%nat \/ (str1 = str /\ cur str = NUL).
Proof.
  unfold gsmi_parse_memory. cbv zeta.
  set (p := skip_char QUOTE (skip_char COMMA str)).
  assert (Hp : p = str \/ (length p < length str)%nat).
  { unfold p.
    destruct (skip_char_cases COMMA str) as [E1|E1];
      destruct (skip_char_cases QUOTE (skip_char COMMA str)) as [E2|E2].
    - left. rewrite E2, E1. reflexivity.
    - right. rewrite E1 in E2 |- *. exact E2.
    - right. rewrite E2. exact E1.
    - right. pose proof (skip_char_length COMMA str). lia. }
  destruct (scan_mem_map map p) as [[mem sl]|] eqn:Es.
  - destruct (scan_mem_map_some _ _ _ _ Es) as (l & Hin & ->).
    assert (Hl : l <> []).
    { apply (proj1 (List.Forall_forall _ _) map_ok _ Hin). }
    assert (Hl1 : (1 <= length l)%nat) by (destruct l; [congruence | cbn [length]; lia]).
    set (s1 := List.skipn (length l) p).
    assert (H1 : (length s1 <= length p)%nat) by (unfold s1; rewrite List.length_skipn; lia).
    set (s2 := if (mem =? unk)%nat then snd (gsmi_parse_string s1 false 0 true) else s1).
    assert (H2 : (length s2 <= length s1)%nat).
    { unfold s2. destruct (mem =? unk)%nat; [apply parse_string_skip | lia]. }
    pose proof (skip_char_length QUOTE s2) as H3. cbn [snd].
    destruct Hp as [Hp|Hp]; [|left; lia].
    destruct p as [|c r] eqn:Ep.
    + subst str. right. split; [|reflexivity].
      destruct (skip_char QUOTE s2); [reflexivity | cbn [length] in *; lia].
    + left. assert (length s1 < length (c :: r))%nat.
      { unfold s1. apply skipn_length_lt; [exact Hl1 | discriminate]. }
      rewrite <- Hp. lia.
  - rewrite Nat.eqb_refl. cbn [snd].
    pose proof (parse_string_skip p) as (H1 & H2 & H3). cbv zeta in H1, H2, H3.
    set (s2 := snd (gsmi_parse_string p false 0 true)) in *.
    pose proof (skip_char_length QUOTE s2) as H4.
    destruct Hp as [Hp|Hp]; [|left; lia].
    destruct (Ascii.eqb (cur str) NUL) eqn:En.
    + apply Ascii.eqb_eq in En. right. split; [|exact En].
      assert (s2 = str) as ->.
      { rewrite <- Hp. apply H3. rewrite Hp. exact En. }
      apply skip_char_nul; [exact En | exact QUOTE_not_NUL].
    + left. assert (cur p <> NUL).
      { rewrite Hp. intros Hc. rewrite Hc, Ascii.eqb_refl in En. discriminate. }
      specialize (H2 H). rewrite <- Hp. lia.
Qed.

Lemma parse_memory_bound (str : cursor) :
  (fst (gsmi_parse_memory map unk str) < 32)%nat.
Proof.
  unfold gsmi_parse_memory. cbv zeta.
  destruct (scan_mem_map map _) as [[mem sl]|] eqn:Es; cbn [fst]; [|exact unk_ok].
  destruct (scan_mem_map_some _ _ _ _ Es) as (l & Hin & _).
  apply (proj1 (List.Forall_forall _ _) map_ok _ Hin).
Qed.

Lemma mem_bit_nonzero (mem : gsm_mem_t) : (mem < 32)%nat -> mem_bit mem <> 0.
Proof.
  intros Hm. unfold mem_bit, to_u32. rewrite Z.shiftl_1_l.
  assert (0 < 2 ^ Z.of_nat mem) by (apply Z.pow_pos_nonneg; lia).
  assert (2 ^ Z.of_nat mem < 2 ^ 32) by (apply Z.pow_lt_mono_r; lia).
  rewrite Z.mod_small by lia. lia.
Qed.

Lemma lor_nonzero (a b : Z) : b <> 0 -> Z.lor a b <> 0.
Proof. intros Hb H. apply Z.lor_eq_0_iff in H. lia. Qed.

Lemma memories_loop_some (fuel : nat) (str : cursor) (mask : Z) :
  (length str < fuel)%nat ->
  exists mask' str', memories_loop map unk fuel str mask = Some (mask', str') /\ mask' <> 0.
Proof.
  revert str mask. induction fuel as [|fuel IH]; intros str mask Hf; [lia|].
  cbn [memories_loop].
  pose proof (parse_memory_progress str) as Hpr.
  pose proof (parse_memory_bound str) as Hb.
  destruct (gsmi_parse_memory map unk str) as [mem str1] eqn:Em. cbn [fst snd] in Hpr, Hb.
  assert (Hnz : Z.lor mask (mem_bit mem) <> 0) by (apply lor_nonzero, mem_bit_nonzero, Hb).
  destruct (negb (Ascii.eqb (cur str1) NUL) && negb (Ascii.eqb (cur str1) RPAREN)) eqn:Ec.
  - apply andb_true_iff in Ec as [Ec _]. apply negb_true_iff in Ec.
    apply IH. destruct Hpr as [Hlt|[-> Hn]]; [lia|].
    rewrite Hn, Ascii.eqb_refl in Ec. discriminate.
  - exists (Z.lor mask (mem_bit mem)), str1. split; [reflexivity | exact Hnz].
Qed.

Lemma memories_string_some (src : cursor) :
  exists mask str', gsmi_parse_memories_string map unk src = Some (1, mask, str') /\ mask <> 0.
Proof.
  unfold gsmi_parse_memories_string. cbv zeta.
  destruct (memories_loop_some (S (length (skip_char LPAREN (skip_char COMMA src))))
              (skip_char LPAREN (skip_char COMMA src)) 0 (Nat.lt_succ_diag_r _))
    as (mask & str' & -> & Hm).
  exists mask, (skip_char RPAREN str'). split; [reflexivity | exact Hm].
Qed.

Lemma cpms_opt_loop_some (k i : nat) (str : cursor) (m : list gsm_sms_mem_t) :
  exists m', cpms_opt_loop map unk k i str m = Some (1, m').
Proof.
  revert i str m. induction k as [|k IH]; intros i str m; cbn [cpms_opt_loop].
  - exists m. reflexivity.
  - destruct (memories_string_some str) as (mask & str' & -> & _).
    apply IH.
Qed.

End MemoryProgress.

(** C10: for a memory table whose literals are non-empty and whose
    identifiers, like [GSM_MEM_UNKNOWN], are below 32 (so that the bit
    [1 << mem] exists), [gsmi_parse_memories_string] terminates on every
    input, returns 1 and sets at least one bit of the mask: its do-while
    loop runs [gsmi_parse_memory] at least once.  Hence the failure branch
    of case 0 of [gsmi_parse_cpms] is never taken, and [gsmi_parse_cpms]
    returns 1 for every input and every option value. *)
Theorem memories_string_total_nonzero (map : list (list ascii * gsm_mem_t)) (unk : gsm_mem_t) :
  Forall (fun e => fst e <> [] /\ (snd e < 32)%nat) map ->
  (unk < 32)%nat ->
  (forall src, exists mask str',
      gsmi_parse_memories_string map unk src = Some (1, mask, str') /\ mask <> 0)
  /\ (forall str opt g, exists g', gsmi_parse_cpms map unk str opt g = Some (1, g')).
Proof.
  intros Hmap Hunk. split.
  - intros src. apply (memories_string_some map unk Hmap Hunk).
  - intros str opt g. unfold gsmi_parse_cpms. cbv zeta.
    destruct (opt =? 0).
    + destruct (cpms_opt_loop_some map unk Hmap Hunk 3 0 (skip_prefix str) (sms_mem g))
        as (m & ->).
      eexists. reflexivity.
    + destruct (opt =? 1); [eexists; reflexivity|].
      destruct (opt =? 2); eexists; reflexivity.
Qed.

(** Witnesses: the hypotheses of the theorems above hold at concrete inputs. *)

Lemma cops_scan_after_reset_witness :
  (1 <= 1)%nat /\
  let '(_, u1, cs1) := gsmi_parse_cops_scan NUL true scan_reset
                         (mk_cops_scan [op_blank] 1 0 (Some 0%nat)) in
  cops_scan_feed [LPAREN; RPAREN] u1 cs1
    = (mk_scan false false 0 0 RPAREN,
       mk_cops_scan [op_blank] 1 1 (option_map (fun _ => 1%nat) (Some 0%nat)))
  /\ sc_ccd (fst (cops_scan_feed [COMMA] u1 cs1)) = true
  /\ snd (cops_scan_feed [COMMA] u1 cs1) = cs1.
Proof.
  split; [lia|].
  apply (cops_scan_after_reset NUL scan_reset [op_blank] 1 (Some 0%nat)). lia.
Defined.

(** A scan that has stored one record, with room for a second. *)
Definition op_filled : gsm_operator_t :=
  mk_operator 2 (s "Operator" ++ repeat NUL 12) (s "Op" ++ repeat NUL 8) 29341.
Definition cops_scan_one : cops_scan_t := mk_cops_scan [op_filled; op_blank] 2 1 (Some 1%nat).
(** The same array once both records are stored. *)
Definition cops_scan_full : cops_scan_t := mk_cops_scan [op_filled; op_filled] 2 2 (Some 2%nat).
(** A second record, as the modem sends it after the first. *)
Definition cops_second_record : list ascii := s ",(1,Other,Ot,26201)".
Definition scan_after_record : scan_state := mk_scan false false 0 0 RPAREN.

Lemma cops_scan_latched_ignores_witness :
  snd (cops_scan_feed cops_second_record scan_after_record cops_scan_one) <> cops_scan_one
  /\ (snd (cops_scan_feed cops_second_record (set_ccd true scan_after_record) cops_scan_one)
        = cops_scan_one
      /\ (sc_ccd (set_ccd true scan_after_record) = true ->
          sc_ccd (fst (cops_scan_feed cops_second_record (set_ccd true scan_after_record)
                         cops_scan_one)) = true))
  /\ (snd (cops_scan_feed cops_second_record scan_after_record cops_scan_full) = cops_scan_full
      /\ (sc_ccd scan_after_record = true ->
          sc_ccd (fst (cops_scan_feed cops_second_record scan_after_record cops_scan_full))
          = true)).
Proof.
  split; [vm_compute; discriminate|].
  split.
  - apply (cops_scan_latched_ignores cops_second_record (set_ccd true scan_after_record)
             cops_scan_one). left. reflexivity.
  - apply (cops_scan_latched_ignores cops_second_record scan_after_record cops_scan_full).
    right. vm_compute. lia.
Defined.

Lemma parse_number_exact_witness :
  Forall is_digit (s "123") /\ GSM_CHARISNUM (cur (s ",rest")) = false
  /\ (s "123" <> [] \/ true = true
      \/ ~ In (cur (s ",rest")) [QUOTE; COMMA; SLASH; COLON; PLUS; MINUS])
  /\ digits_value (s "123") < 2 ^ 31
  /\ gsmi_parse_number (number_lead false false false false false false
                          ++ [MINUS] ++ s "123" ++ s ",rest")
     = (- digits_value (s "123"), skip_char COMMA (s ",rest")).
Proof.
  assert (H1 : Forall is_digit (s "123")) by (repeat constructor).
  assert (H2 : GSM_CHARISNUM (cur (s ",rest")) = false) by reflexivity.
  assert (H3 : s "123" <> [] \/ true = true
               \/ ~ In (cur (s ",rest")) [QUOTE; COMMA; SLASH; COLON; PLUS; MINUS])
    by (left; discriminate).
  assert (H4 : digits_value (s "123") < 2 ^ 31) by (vm_compute; reflexivity).
  refine (conj H1 (conj H2 (conj H3 (conj H4 _)))).
  exact (parse_number_exact false false false false false false true (s "123") (s ",rest")
           H1 H2 H3 H4).
Defined.

Lemma cops_numeric_roundtrip_witness :
  s "0" <> [] /\ Forall is_digit (s "0") /\ s "29341" <> []
  /\ Forall is_digit (s "29341") /\ digits_value (s "29341") < 2 ^ 31
  /\ let op := net_curr_operator (network (snd (gsmi_parse_cops
                 (cops_numeric_line (s "0") (s "29341")) gsm_init))) in
     op_format op = GSM_OPERATOR_FORMAT_NUMBER /\ op_num op = digits_value (s "29341").
Proof.
  assert (H1 : s "0" <> []) by discriminate.
  assert (H2 : Forall is_digit (s "0")) by (repeat constructor).
  assert (H3 : s "29341" <> []) by discriminate.
  assert (H4 : Forall is_digit (s "29341")) by (repeat constructor).
  assert (H5 : digits_value (s "29341") < 2 ^ 31) by (vm_compute; reflexivity).
  refine (conj H1 (conj H2 (conj H3 (conj H4 (conj H5 _))))).
  exact (cops_numeric_roundtrip (s "0") (s "29341") gsm_init H1 H2 H3 H4 H5).
Defined.

Lemma list_entry_parsers_witness :
  exists e, gsmi_parse_cmgl (s "+CMGL: 1,") gsm_cmgl_active
    = (1, set_msg (Some (set_sms_list
           (mk_sms_list 0 (<[0%nat := e]> [sms_blank; sms_blank]) 2 0 None)
           (mk_msg GSM_CMD_CMGL None (mk_sms_list 0 [sms_blank; sms_blank] 2 0 None)
              pb_list_empty pb_list_empty cops_scan_empty))) gsm_cmgl_active).
Proof.
  destruct (list_entry_parsers (s "+CMGL: 1,") gsm_cmgl_active) as (_ & _ & _ & _ & _ & H).
  exact (H _ eq_refl eq_refl ltac:(vm_compute; lia)).
Defined.

Definition mem_map_example : list (list ascii * gsm_mem_t) := [(s "SM", 1%nat); (s "ME", 2%nat)].

Lemma memories_string_total_nonzero_witness :
  Forall (fun e => fst e <> [] /\ (snd e < 32)%nat) mem_map_example /\ (31%nat < 32)%nat
  /\ (forall src, exists mask str',
        gsmi_parse_memories_string mem_map_example 31%nat src = Some (1, mask, str') /\ mask <> 0)
  /\ (forall str opt g, exists g', gsmi_parse_cpms mem_map_example 31%nat str opt g = Some (1, g')).
Proof.
  assert (H1 : Forall (fun e => fst e <> [] /\ (snd e < 32)%nat) mem_map_example).
  { unfold mem_map_example.
    apply List.Forall_cons; [split; [discriminate | cbn [snd]; lia]|].
    apply List.Forall_cons; [split; [discriminate | cbn [snd]; lia]|].
    apply List.Forall_nil. }
  assert (H2 : (31%nat < 32)%nat) by lia.
  refine (conj H1 (conj H2 _)).
  exact (memories_string_total_nonzero mem_map_example 31%nat H1 H2).
Defined.

(* ================================================================== *)
(** * Further properties of the scanners and parsers *)

(** ** Arithmetic of the 32-bit accumulators *)

Lemma wrap32_mod (x : Z) : wrap32 x mod 2 ^ 32 = x mod 2 ^ 32.
Proof.
  unfold wrap32. rewrite Zminus_mod_idemp_l. f_equal. lia.
Qed.

Lemma wrap32_eq_mod (x y : Z) : x mod 2 ^ 32 = y mod 2 ^ 32 -> wrap32 x = wrap32 y.
Proof.
  intros H. unfold wrap32.
  rewrite <- (Zplus_mod_idemp_l x), <- (Zplus_mod_idemp_l y), H. reflexivity.
Qed.

Lemma wrap32_step_mod (b d v : Z) :
  (wrap32 v * b + d) mod 2 ^ 32 = (v * b + d) mod 2 ^ 32.
Proof.
  rewrite <- Zplus_mod_idemp_l, <- Zmult_mod_idemp_l, wrap32_mod,
    Zmult_mod_idemp_l, Zplus_mod_idemp_l. reflexivity.
Qed.

(** Wrapping at every step of a base-[b] accumulation is wrapping once at
    the end. *)
Lemma fold_wrap (b : Z) (f : ascii -> Z) (ds : list ascii) (v : Z) :
  fold_left (fun v c => wrap32 (v * b + f c)) ds (wrap32 v)
  = wrap32 (fold_left (fun v c => v * b + f c) ds v).
Proof.
  revert v. induction ds as [|c ds IH]; intros v; cbn [fold_left]; [reflexivity|].
  rewrite (wrap32_eq_mod (wrap32 v * b + f c) (v * b + f c)) by apply wrap32_step_mod.
  apply IH.
Qed.

Lemma fold_wrap0 (b : Z) (f : ascii -> Z) (ds : list ascii) :
  fold_left (fun v c => wrap32 (v * b + f c)) ds 0
  = wrap32 (fold_left (fun v c => v * b + f c) ds 0).
Proof. exact (fold_wrap b f ds 0). Qed.

Lemma wrap32_range (x : Z) : - 2 ^ 31 <= wrap32 x < 2 ^ 31.
Proof.
  unfold wrap32. pose proof (Z.mod_pos_bound (x + 2 ^ 31) (2 ^ 32) ltac:(lia)). lia.
Qed.

Lemma wrap32_opp_wrap (x : Z) : wrap32 (- wrap32 x) = wrap32 (- x).
Proof.
  apply wrap32_eq_mod.
  rewrite <- (Z.sub_0_l (wrap32 x)), <- (Z.sub_0_l x).
  rewrite Zminus_mod, wrap32_mod, <- Zminus_mod. reflexivity.
Qed.

Lemma parse_digits_value (ds rest : cursor) :
  Forall is_digit ds -> GSM_CHARISNUM (cur rest) = false ->
  parse_digits (ds ++ rest) 0 = (wrap32 (digits_value ds), rest).
Proof.
  intros Hds Hr. rewrite parse_digits_app by assumption.
  unfold digit_step, digits_value, digit_step. rewrite fold_wrap0. reflexivity.
Qed.

(** [gsmi_parse_number] on a run of digits, with or without a minus sign,
    followed by a non-digit. *)
Lemma parse_number_run (minus : bool) (ds rest : cursor) :
  ds <> [] -> Forall is_digit ds -> GSM_CHARISNUM (cur rest) = false ->
  gsmi_parse_number ((if minus then [MINUS] else []) ++ ds ++ rest)
  = (wrap32 (if minus then - digits_value ds else digits_value ds), skip_char COMMA rest).
Proof.
  intros Hne Hds Hr. destruct ds as [|d ds']; [congruence|].
  pose proof Hds as Hds0. inversion Hds as [|? ? Hd Hds']; subst.
  destruct (nonskip_of_digit d Hd) as (H1 & H2 & H3 & H4 & H5 & H6).
  unfold gsmi_parse_number. cbv zeta.
  destruct minus.
  - pose proof (number_lead_skip false false false false false false
                  ([MINUS] ++ (d :: ds') ++ rest) eq_refl eq_refl eq_refl eq_refl eq_refl) as E.
    cbn [number_lead app] in E. cbn [app]. rewrite E.
    change (Ascii.eqb (cur (MINUS :: ?x)) MINUS) with true. cbv iota.
    change (adv (MINUS :: ?x)) with x.
    rewrite (app_comm_cons ds' rest d).
    rewrite parse_digits_value by assumption. cbv iota.
    rewrite wrap32_opp_wrap. reflexivity.
  - pose proof (number_lead_skip false false false false false false ((d :: ds') ++ rest)
                  H1 H2 H3 H4 H5) as E.
    cbn [number_lead app] in E. cbn [app]. rewrite E.
    cbn [cur]. rewrite H6. cbv iota.
    rewrite (app_comm_cons ds' rest d).
    rewrite parse_digits_value by assumption. reflexivity.
Qed.

(** The value of a run of hexadecimal digits. *)
Definition is_hexdigit (c : ascii) : Prop := GSM_CHARISHEXNUM c = true.
Definition hex_value (ds : list ascii) : Z :=
  fold_left (fun v c => v * 16 + GSM_CHARHEXTONUM c) ds 0.

Lemma parse_hexdigits_app (ds rest : cursor) (v : Z) :
  Forall is_hexdigit ds -> GSM_CHARISHEXNUM (cur rest) = false ->
  parse_hexdigits (ds ++ rest) v
  = (fold_left (fun v c => wrap32 (v * 16 + GSM_CHARHEXTONUM c)) ds v, rest).
Proof.
  intros Hds Hr. revert v. induction Hds as [|d ds Hd Hds IH]; intros v; cbn [app].
  - destruct rest as [|c r]; cbn [parse_hexdigits]; [reflexivity|].
    cbn [cur] in Hr. rewrite Hr. reflexivity.
  - cbn [parse_hexdigits]. unfold is_hexdigit in Hd. rewrite Hd. apply IH.
Qed.

Lemma hexdigit_not_quote_comma (d : ascii) :
  is_hexdigit d -> Ascii.eqb d QUOTE = false /\ Ascii.eqb d COMMA = false.
Proof.
  unfold is_hexdigit. intros H.
  split; destruct (Ascii.eqb d _) eqn:E; auto; apply Ascii.eqb_eq in E; subst;
    discriminate H.
Qed.

Lemma to_u32_wrap32 (x : Z) : to_u32 (wrap32 x) = x mod 2 ^ 32.
Proof. unfold to_u32. apply wrap32_mod. Qed.

Lemma parse_hexnumber_run (ds rest : cursor) :
  ds <> [] -> Forall is_hexdigit ds -> GSM_CHARISHEXNUM (cur rest) = false ->
  gsmi_parse_hexnumber (ds ++ rest) = (hex_value ds mod 2 ^ 32, skip_char COMMA rest).
Proof.
  intros Hne Hds Hr. destruct ds as [|d ds']; [congruence|].
  pose proof Hds as Hds0. inversion Hds as [|? ? Hd Hds']; subst.
  destruct (hexdigit_not_quote_comma d Hd) as [Hq Hc].
  unfold gsmi_parse_hexnumber. cbv zeta. cbn [app].
  rewrite (skip_char_id QUOTE (d :: ds' ++ rest) Hq),
    (skip_char_id COMMA (d :: ds' ++ rest) Hc), (skip_char_id QUOTE (d :: ds' ++ rest) Hq).
  rewrite (app_comm_cons ds' rest d), parse_hexdigits_app by assumption.
  rewrite fold_wrap0, to_u32_wrap32. reflexivity.
Qed.

(** ** Rendering of bytes, for the address scanners *)

Definition dec_digit (n : nat) : ascii := ascii_of_nat (48 + n).

(** A byte in decimal, without leading zeros. *)
Definition dec_byte (b : nat) : list ascii :=
  if (b <? 10)%nat then [dec_digit b]
  else if (b <? 100)%nat then [dec_digit (b / 10); dec_digit (b mod 10)]
  else [dec_digit (b / 100); dec_digit ((b / 10) mod 10); dec_digit (b mod 10)].

Definition hex_digit (n : nat) : ascii :=
  ascii_of_nat (if (n <? 10)%nat then 48 + n else 55 + n).

(** A byte as two upper-case hexadecimal digits. *)
Definition hex_byte (b : nat) : list ascii := [hex_digit (b / 16); hex_digit (b mod 16)].

Fixpoint join (sep : ascii) (xs : list (list ascii)) : list ascii :=
  match xs with
  | [] => []
  | [x] => x
  | x :: xs' => x ++ sep :: join sep xs'
  end.

Definition DOT : ascii := "."%char.

(** "a.b.c.d" and "xx:xx:xx:xx:xx:xx". *)
Definition ip_text (bs : list nat) : list ascii := join DOT (map dec_byte bs).
Definition mac_text (bs : list nat) : list ascii := join COLON (map hex_byte bs).

Definition dec_byte_ok (b : nat) : bool :=
  negb (Nat.eqb (length (dec_byte b)) 0) && forallb GSM_CHARISNUM (dec_byte b)
  && (digits_value (dec_byte b) =? Z.of_nat b).
Definition hex_byte_ok (b : nat) : bool :=
  forallb GSM_CHARISHEXNUM (hex_byte b) && (hex_value (hex_byte b) =? Z.of_nat b).

Lemma all_dec_bytes_ok : forallb dec_byte_ok (seq 0 256) = true.
Proof. vm_compute. reflexivity. Qed.

Lemma all_hex_bytes_ok : forallb hex_byte_ok (seq 0 256) = true.
Proof. vm_compute. reflexivity. Qed.

Lemma forallb_Forall {A} (P : A -> Prop) (f : A -> bool) (l : list A) :
  (forall x, f x = true -> P x) -> forallb f l = true -> Forall P l.
Proof.
  intros Hf H. apply List.Forall_forall. intros x Hx.
  apply Hf. exact (proj1 (List.forallb_forall f l) H x Hx).
Qed.

Lemma byte_in_seq (b : nat) : (b < 256)%nat -> In b (seq 0 256).
Proof. intros H. apply List.in_seq. lia. Qed.

Lemma dec_byte_spec (b : nat) : (b < 256)%nat ->
  dec_byte b <> [] /\ Forall is_digit (dec_byte b) /\ digits_value (dec_byte b) = Z.of_nat b.
Proof.
  intros Hb.
  pose proof (proj1 (List.forallb_forall _ _) all_dec_bytes_ok b (byte_in_seq b Hb)) as H.
  unfold dec_byte_ok in H. apply andb_prop in H as [H H3]. apply andb_prop in H as [H1 H2].
  split; [|split].
  - destruct (dec_byte b); [discriminate | congruence].
  - apply (forallb_Forall _ GSM_CHARISNUM); [auto | exact H2].
  - apply Z.eqb_eq. exact H3.
Qed.

Lemma hex_byte_spec (b : nat) : (b < 256)%nat ->
  Forall is_hexdigit (hex_byte b) /\ hex_value (hex_byte b) = Z.of_nat b.
Proof.
  intros Hb.
  pose proof (proj1 (List.forallb_forall _ _) all_hex_bytes_ok b (byte_in_seq b Hb)) as H.
  unfold hex_byte_ok in H. apply andb_prop in H as [H1 H2]. split.
  - apply (forallb_Forall _ GSM_CHARISHEXNUM); [auto | exact H1].
  - apply Z.eqb_eq. exact H2.
Qed.

Lemma to_u8_byte (b : nat) : (b < 256)%nat -> to_u8 (Z.of_nat b) = Z.of_nat b.
Proof. intros H. unfold to_u8. rewrite Z.mod_small; [reflexivity | lia]. Qed.

Lemma parse_number_dec_byte (b : nat) (c : ascii) (r : cursor) :
  (b < 256)%nat -> GSM_CHARISNUM c = false -> Ascii.eqb c COMMA = false ->
  gsmi_parse_number (dec_byte b ++ c :: r) = (Z.of_nat b, c :: r).
Proof.
  intros Hb Hc Hcc. destruct (dec_byte_spec b Hb) as (Hne & Hds & Hv).
  pose proof (parse_number_run false (dec_byte b) (c :: r) Hne Hds Hc) as E.
  cbn [app] in E. rewrite E, Hv, wrap32_small by lia.
  rewrite skip_char_id by exact Hcc. reflexivity.
Qed.

Lemma parse_hexnumber_hex_byte (b : nat) (c : ascii) (r : cursor) :
  (b < 256)%nat -> GSM_CHARISHEXNUM c = false -> Ascii.eqb c COMMA = false ->
  gsmi_parse_hexnumber (hex_byte b ++ c :: r) = (Z.of_nat b, c :: r).
Proof.
  intros Hb Hc Hcc. destruct (hex_byte_spec b Hb) as (Hds & Hv).
  rewrite parse_hexnumber_run by (try assumption; discriminate).
  rewrite Hv, Z.mod_small by lia. rewrite skip_char_id by exact Hcc. reflexivity.
Qed.

(** ** Numbers and addresses *)

(** X1.  [gsmi_parse_number] accepts a digit run of any length: its value,
    negated after a minus sign, is reduced modulo 2^32 into the [int32_t]
    range, and the cursor stops after the run and one following comma. *)
Theorem parse_number_wraps (minus : bool) (ds rest : cursor) :
  ds <> [] -> Forall is_digit ds -> GSM_CHARISNUM (cur rest) = false ->
  let v := if minus then - digits_value ds else digits_value ds in
  let '(r, p) := gsmi_parse_number ((if minus then [MINUS] else []) ++ ds ++ rest) in
  r mod 2 ^ 32 = v mod 2 ^ 32 /\ - 2 ^ 31 <= r < 2 ^ 31 /\ p = skip_char COMMA rest.
Proof.
  intros Hne Hds Hr. cbv zeta. rewrite parse_number_run by assumption.
  split; [apply wrap32_mod | split; [apply wrap32_range | reflexivity]].
Qed.

Lemma parse_number_wraps_witness :
  s "4294967297" <> [] /\ Forall is_digit (s "4294967297") /\ GSM_CHARISNUM (cur (s ",x")) = false /\
  let v := if false then - digits_value (s "4294967297") else digits_value (s "4294967297") in
  let '(r, p) := gsmi_parse_number ((if false then [MINUS] else []) ++ s "4294967297" ++ s ",x") in
  r mod 2 ^ 32 = v mod 2 ^ 32 /\ - 2 ^ 31 <= r < 2 ^ 31 /\ p = skip_char COMMA (s ",x").
Proof.
  assert (H1 : s "4294967297" <> []) by discriminate.
  assert (H2 : Forall is_digit (s "4294967297")) by repeat constructor.
  assert (H3 : GSM_CHARISNUM (cur (s ",x")) = false) by reflexivity.
  split; [exact H1|]. split; [exact H2|]. split; [exact H3|].
  exact (parse_number_wraps false (s "4294967297") (s ",x") H1 H2 H3).
Defined.

(** X2.  [gsmi_parse_hexnumber] on a run of hexadecimal digits (either case)
    returns the run's value modulo 2^32 and stops after the run and one
    following comma. *)
Theorem hexnumber_value_mod (ds rest : cursor) :
  ds <> [] -> Forall is_hexdigit ds -> GSM_CHARISHEXNUM (cur rest) = false ->
  gsmi_parse_hexnumber (ds ++ rest) = (hex_value ds mod 2 ^ 32, skip_char COMMA rest).
Proof. intros Hne Hds Hr. apply parse_hexnumber_run; assumption. Qed.

(** X3.  Round trip of [gsmi_parse_ip]: the quoted dotted-decimal text of four
    bytes gives back the four bytes (no step goes past the end of the
    string) and leaves the cursor just after the closing quote. *)
Theorem parse_ip_roundtrip (bs : list nat) (rest : cursor) :
  length bs = 4%nat -> Forall (fun b => b < 256)%nat bs ->
  gsmi_parse_ip (QUOTE :: ip_text bs ++ QUOTE :: rest) = Some (1, map Z.of_nat bs, rest).
Proof.
  intros Hl Hb.
  destruct bs as [|b0 [|b1 [|b2 [|b3 [|]]]]]; try discriminate.
  pose proof (proj1 (List.Forall_forall _ _) Hb) as Hb'. clear Hb. rename Hb' into Hb.
  assert (B0 : (b0 < 256)%nat) by (apply Hb; simpl; tauto).
  assert (B1 : (b1 < 256)%nat) by (apply Hb; simpl; tauto).
  assert (B2 : (b2 < 256)%nat) by (apply Hb; simpl; tauto).
  assert (B3 : (b3 < 256)%nat) by (apply Hb; simpl; tauto).
  unfold ip_text. cbn [map join]. repeat (rewrite <- app_assoc; cbn [app]).
  unfold gsmi_parse_ip. change (skip_char QUOTE (QUOTE :: ?x)) with x.
  rewrite (parse_number_dec_byte b0) by (auto; reflexivity). cbn [step_past].
  rewrite (parse_number_dec_byte b1) by (auto; reflexivity). cbn [step_past].
  rewrite (parse_number_dec_byte b2) by (auto; reflexivity). cbn [step_past].
  rewrite (parse_number_dec_byte b3) by (auto; reflexivity).
  change (skip_char QUOTE (QUOTE :: ?x)) with x.
  rewrite !to_u8_byte by assumption. reflexivity.
Qed.

Lemma parse_ip_roundtrip_witness :
  gsmi_parse_ip (QUOTE :: ip_text [192; 168; 0; 1]%nat ++ QUOTE :: s "x")
  = Some (1, map Z.of_nat [192; 168; 0; 1]%nat, s "x").
Proof.
  apply (parse_ip_roundtrip [192; 168; 0; 1]%nat (s "x")); [reflexivity|].
  repeat (apply List.Forall_cons; [lia|]). apply List.Forall_nil.
Defined.

Lemma hexnumber_value_mod_witness :
  gsmi_parse_hexnumber (s "1aF" ++ s ",x") = (hex_value (s "1aF") mod 2 ^ 32, skip_char COMMA (s ",x")).
Proof.
  apply (hexnumber_value_mod (s "1aF") (s ",x")); [discriminate | repeat constructor | reflexivity].
Defined.

(** X4.  Round trip of [gsmi_parse_mac]: the quoted text of six bytes in
    two-digit hexadecimal separated by colons gives back the six bytes (no
    step goes past the end of the string); the cursor is left after the
    closing quote and one following comma. *)
Theorem parse_mac_roundtrip (bs : list nat) (rest : cursor) :
  length bs = 6%nat -> Forall (fun b => b < 256)%nat bs ->
  gsmi_parse_mac (QUOTE :: mac_text bs ++ QUOTE :: rest)
  = Some (1, map Z.of_nat bs, skip_char COMMA rest).
Proof.
  intros Hl Hb.
  destruct bs as [|b0 [|b1 [|b2 [|b3 [|b4 [|b5 [|]]]]]]]; try discriminate.
  pose proof (proj1 (List.Forall_forall _ _) Hb) as Hb'. clear Hb. rename Hb' into Hb.
  assert (B0 : (b0 < 256)%nat) by (apply Hb; simpl; tauto).
  assert (B1 : (b1 < 256)%nat) by (apply Hb; simpl; tauto).
  assert (B2 : (b2 < 256)%nat) by (apply Hb; simpl; tauto).
  assert (B3 : (b3 < 256)%nat) by (apply Hb; simpl; tauto).
  assert (B4 : (b4 < 256)%nat) by (apply Hb; simpl; tauto).
  assert (B5 : (b5 < 256)%nat) by (apply Hb; simpl; tauto).
  unfold mac_text. cbn [map join]. repeat (rewrite <- app_assoc; cbn [app]).
  unfold gsmi_parse_mac. change (skip_char QUOTE (QUOTE :: ?x)) with x.
  rewrite (parse_hexnumber_hex_byte b0) by (auto; reflexivity). cbn [step_past].
  rewrite (parse_hexnumber_hex_byte b1) by (auto; reflexivity). cbn [step_past].
  rewrite (parse_hexnumber_hex_byte b2) by (auto; reflexivity). cbn [step_past].
  rewrite (parse_hexnumber_hex_byte b3) by (auto; reflexivity). cbn [step_past].
  rewrite (parse_hexnumber_hex_byte b4) by (auto; reflexivity). cbn [step_past].
  rewrite (parse_hexnumber_hex_byte b5) by (auto; reflexivity).
  change (skip_char QUOTE (QUOTE :: ?x)) with x.
  rewrite !to_u8_byte by assumption. reflexivity.
Qed.

Lemma parse_mac_roundtrip_witness :
  gsmi_parse_mac (QUOTE :: mac_text [0; 17; 34; 51; 68; 255]%nat ++ QUOTE :: s ",x")
  = Some (1, map Z.of_nat [0; 17; 34; 51; 68; 255]%nat, skip_char COMMA (s ",x")).
Proof.
  apply (parse_mac_roundtrip [0; 17; 34; 51; 68; 255]%nat (s ",x")); [reflexivity|].
  repeat (apply List.Forall_cons; [lia|]). apply List.Forall_nil.
Defined.

(** ** Quoted strings *)

(** A character of a field text: neither the string end nor a quote. *)
Definition field_char (c : ascii) : Prop := c <> NUL /\ c <> QUOTE.

Lemma eqb_false_of_neq (a b : ascii) : a <> b -> Ascii.eqb a b = false.
Proof. intros H. destruct (Ascii.eqb a b) eqn:E; [apply Ascii.eqb_eq in E; congruence | auto]. Qed.

Lemma loop_field_end (d : ascii) (r : cursor) (has_dst : bool) (i k : nat) (trim : bool) :
  is_field_end d = true -> parse_string_loop (QUOTE :: d :: r) has_dst i k trim = ([], d :: r).
Proof.
  intros Hd. cbn [parse_string_loop cur].
  change (Ascii.eqb QUOTE NUL) with false. change (Ascii.eqb QUOTE QUOTE) with true.
  rewrite Hd. reflexivity.
Qed.

Lemma loop_field_trim (t : list ascii) (d : ascii) (r : cursor) (i k : nat) :
  Forall field_char t -> is_field_end d = true -> (i <= k)%nat ->
  parse_string_loop (t ++ QUOTE :: d :: r) true i k true = (firstn (k - i) t, d :: r).
Proof.
  intros Ht Hd. revert i. induction Ht as [|c t [Hn Hq] Ht IH]; intros i Hi; cbn [app].
  - rewrite loop_field_end by exact Hd. rewrite firstn_nil. reflexivity.
  - cbn [parse_string_loop]. rewrite (eqb_false_of_neq c NUL Hn), (eqb_false_of_neq c QUOTE Hq).
    cbn [andb].
    destruct (Nat.ltb_spec i k) as [Hlt|Hge].
    + rewrite (IH (S i) Hlt). replace (k - i)%nat with (S (k - S i)) by lia. reflexivity.
    + assert (i = k) as -> by lia. rewrite (IH k (le_n k)), Nat.sub_diag. reflexivity.
Qed.

Lemma loop_field_notrim (t : list ascii) (d : ascii) (r : cursor) (i k : nat) :
  Forall field_char t -> is_field_end d = true -> (i <= k)%nat ->
  parse_string_loop (t ++ QUOTE :: d :: r) true i k false
  = (firstn (k - i) t,
     if (length t <=? k - i)%nat then d :: r else skipn (k - i) t ++ QUOTE :: d :: r).
Proof.
  intros Ht Hd. revert i. induction Ht as [|c t [Hn Hq] Ht IH]; intros i Hi; cbn [app].
  - rewrite loop_field_end by exact Hd. rewrite firstn_nil. reflexivity.
  - cbn [parse_string_loop]. rewrite (eqb_false_of_neq c NUL Hn), (eqb_false_of_neq c QUOTE Hq).
    cbn [andb].
    destruct (Nat.ltb_spec i k) as [Hlt|Hge].
    + rewrite (IH (S i) Hlt). replace (k - i)%nat with (S (k - S i)) by lia. reflexivity.
    + assert (i = k) as -> by lia. rewrite Nat.sub_diag. reflexivity.
Qed.

Lemma parse_string_field (t : list ascii) (d : ascii) (r : cursor) (len : nat) (trim : bool) :
  Forall field_char t -> is_field_end d = true ->
  gsmi_parse_string (QUOTE :: t ++ QUOTE :: d :: r) true len trim
  = (1, Some (firstn (len - 1) t ++ [NUL]),
     if trim || (length t <=? len - 1)%nat then d :: r
     else skipn (len - 1) t ++ QUOTE :: d :: r).
Proof.
  intros Ht Hd. unfold gsmi_parse_string.
  change (skip_char COMMA (QUOTE :: ?x)) with (QUOTE :: x).
  change (skip_char QUOTE (QUOTE :: ?x)) with x.
  replace (if (len =? 0)%nat then len else (len - 1)%nat) with (len - 1)%nat
    by (destruct (Nat.eqb_spec len 0); lia).
  destruct trim.
  - rewrite loop_field_trim by (auto; lia). rewrite Nat.sub_0_r. reflexivity.
  - rewrite loop_field_notrim by (auto; lia). rewrite Nat.sub_0_r. reflexivity.
Qed.

Lemma c_str_nul_free (x y : list ascii) :
  Forall (fun c => c <> NUL) x -> c_str (x ++ NUL :: y) = x.
Proof.
  induction 1 as [|c x Hc Hx IH]; cbn [app c_str].
  - change (Ascii.eqb NUL NUL) with true. reflexivity.
  - rewrite (eqb_false_of_neq c NUL Hc), IH. reflexivity.
Qed.

Lemma write_buf_length (buf w : list ascii) :
  (length w <= length buf)%nat -> length (write_buf buf w) = length buf.
Proof. intros H. unfold write_buf. rewrite length_app, List.length_skipn. lia. Qed.

Lemma write_buf_c_str (buf x : list ascii) :
  Forall (fun c => c <> NUL) x -> c_str (write_buf buf (x ++ [NUL])) = x.
Proof.
  intros Hx. unfold write_buf. rewrite <- app_assoc. cbn [app]. apply c_str_nul_free, Hx.
Qed.

Lemma field_nul_free (t : list ascii) (n : nat) :
  Forall field_char t -> Forall (fun c => c <> NUL) (firstn n t).
Proof.
  intros Ht. apply Forall_take.
  eapply List.Forall_impl; [|exact Ht]. intros c [Hc _]. exact Hc.
Qed.

Lemma loop_written_bound (p : cursor) (i k : nat) (trim : bool) :
  (length (fst (parse_string_loop p true i k trim)) <= k - i)%nat
  /\ Forall (fun c => c <> NUL) (fst (parse_string_loop p true i k trim)).
Proof.
  revert i. induction p as [|c p IH]; intros i; cbn [parse_string_loop].
  - cbn. split; [lia | constructor].
  - destruct (Ascii.eqb c NUL) eqn:En; [cbn; split; [lia | constructor]|].
    destruct (Ascii.eqb c QUOTE && is_field_end (cur p)); [cbn; split; [lia | constructor]|].
    destruct (Nat.ltb_spec i k) as [Hlt|Hge].
    + destruct (IH (S i)) as [H1 H2].
      destruct (parse_string_loop p true (S i) k trim) as [w q]. cbn [fst length] in *.
      split; [lia|]. constructor; [|exact H2].
      intros ->. rewrite Ascii.eqb_refl in En. discriminate.
    + destruct trim; [apply IH | cbn; split; [lia | constructor]].
Qed.

(** A decision procedure for [Forall field_char]. *)
Definition field_charb (c : ascii) : bool :=
  negb (Ascii.eqb c NUL) && negb (Ascii.eqb c QUOTE).

Lemma field_chars_of_check (t : list ascii) :
  forallb field_charb t = true -> Forall field_char t.
Proof.
  induction t as [|c t IH]; cbn [forallb]; intros H; constructor.
  - apply andb_prop in H as [H _]. unfold field_charb in H.
    apply andb_prop in H as [H1 H2]. apply negb_true_iff in H1, H2.
    split; intros E; subst c; rewrite Ascii.eqb_refl in *; discriminate.
  - apply IH. apply andb_prop in H as [_ H]. exact H.
Qed.

(** X5.  A quoted field read with trimming: the buffer receives the first
    [sizeof(buf) - 1] characters of the field as a C string, keeps its
    size, and the cursor stops after the closing quote, on the delimiter. *)
Theorem parse_string_trim_roundtrip (t : list ascii) (d : ascii) (r : cursor)
    (buf : list ascii) :
  Forall field_char t -> is_field_end d = true -> buf <> [] ->
  let '(buf', p) := parse_string_into (QUOTE :: t ++ QUOTE :: d :: r) buf true in
  c_str buf' = firstn (length buf - 1) t /\ length buf' = length buf /\ p = d :: r.
Proof.
  intros Ht Hd Hb. unfold parse_string_into.
  rewrite parse_string_field by assumption. cbn [orb].
  assert (length buf <> 0)%nat by (destruct buf; cbn; [congruence | lia]).
  split; [|split; [|reflexivity]].
  - apply write_buf_c_str, field_nul_free, Ht.
  - apply write_buf_length. rewrite length_app, List.length_firstn. cbn. lia.
Qed.

Lemma parse_string_trim_roundtrip_witness :
  let '(buf', p) := parse_string_into (QUOTE :: s "Hello World" ++ QUOTE :: CR :: s "x")
                      (repeat NUL 6) true in
  c_str buf' = firstn (length (repeat NUL 6) - 1) (s "Hello World")
  /\ length buf' = length (repeat NUL 6) /\ p = CR :: s "x".
Proof.
  apply (parse_string_trim_roundtrip (s "Hello World") CR (s "x") (repeat NUL 6)).
  - apply field_chars_of_check. vm_compute. reflexivity.
  - vm_compute. reflexivity.
  - discriminate.
Defined.

(** X6.  Without trimming, the buffer receives the same prefix, but when
    the field does not fit the cursor stops inside the field, on its
    first character that was not copied. *)
Theorem parse_string_notrim_stops (t : list ascii) (d : ascii) (r : cursor)
    (buf : list ascii) :
  Forall field_char t -> is_field_end d = true -> buf <> [] ->
  let '(buf', p) := parse_string_into (QUOTE :: t ++ QUOTE :: d :: r) buf false in
  c_str buf' = firstn (length buf - 1) t /\ length buf' = length buf
  /\ p = (if (length t <? length buf)%nat then d :: r
          else skipn (length buf - 1) t ++ QUOTE :: d :: r).
Proof.
  intros Ht Hd Hb. unfold parse_string_into.
  rewrite parse_string_field by assumption. cbn [orb].
  assert (length buf <> 0)%nat by (destruct buf; cbn; [congruence | lia]).
  split; [|split].
  - apply write_buf_c_str, field_nul_free, Ht.
  - apply write_buf_length. rewrite length_app, List.length_firstn. cbn. lia.
  - destruct (Nat.leb_spec (length t) (length buf - 1)), (Nat.ltb_spec (length t) (length buf));
      reflexivity || lia.
Qed.

Lemma parse_string_notrim_stops_witness :
  let '(buf', p) := parse_string_into (QUOTE :: s "Hello World" ++ QUOTE :: CR :: s "x")
                      (repeat NUL 6) false in
  c_str buf' = firstn (length (repeat NUL 6) - 1) (s "Hello World")
  /\ length buf' = length (repeat NUL 6)
  /\ p = (if (length (s "Hello World") <? length (repeat NUL 6))%nat then CR :: s "x"
          else skipn (length (repeat NUL 6) - 1) (s "Hello World") ++ QUOTE :: CR :: s "x").
Proof.
  apply (parse_string_notrim_stops (s "Hello World") CR (s "x") (repeat NUL 6)).
  - apply field_chars_of_check. vm_compute. reflexivity.
  - vm_compute. reflexivity.
  - discriminate.
Defined.

(** X7.  For a nonzero [dst_len], whatever the input, [gsmi_parse_string]
    writes fewer than [dst_len] non-NUL characters followed by one NUL,
    so it never writes past the destination and always terminates it; in
    particular a buffer of size [dst_len] keeps its size. *)
Theorem parse_string_write_bound (src : cursor) (len : nat) (trim : bool) :
  (1 <= len)%nat ->
  (exists x, snd (fst (gsmi_parse_string src true len trim)) = Some (x ++ [NUL])
             /\ Forall (fun c => c <> NUL) x /\ (length x < len)%nat)
  /\ (forall buf, length buf = len -> length (fst (parse_string_into src buf trim)) = len).
Proof.
  intros Hlen.
  assert (Hw : exists x, snd (fst (gsmi_parse_string src true len trim)) = Some (x ++ [NUL])
             /\ Forall (fun c => c <> NUL) x /\ (length x < len)%nat).
  { unfold gsmi_parse_string.
    replace (if (len =? 0)%nat then len else (len - 1)%nat) with (len - 1)%nat
      by (destruct (Nat.eqb_spec len 0); lia).
    pose proof (loop_written_bound (skip_char QUOTE (skip_char COMMA src)) 0 (len - 1) trim)
      as [H1 H2].
    destruct (parse_string_loop _ true 0 (len - 1) trim) as [w q]. cbn [fst snd] in *.
    exists w. split; [reflexivity | split; [exact H2 | lia]]. }
  split; [exact Hw|]. intros buf <-. destruct Hw as (x & Hx & _ & Hl).
  unfold parse_string_into.
  destruct (gsmi_parse_string src true (length buf) trim) as [[rv w] q]. cbn in Hx |- *.
  subst w. apply write_buf_length. rewrite length_app. cbn. lia.
Qed.

Lemma parse_string_write_bound_witness :
  (1 <= 4)%nat /\
  ((exists x, snd (fst (gsmi_parse_string (s "abcdefg,") true 4 false)) = Some (x ++ [NUL])
             /\ Forall (fun c => c <> NUL) x /\ (length x < 4)%nat)
  /\ (forall buf, length buf = 4%nat ->
       length (fst (parse_string_into (s "abcdefg,") buf false)) = 4%nat)).
Proof. split; [lia | apply (parse_string_write_bound (s "abcdefg,") 4 false); lia]. Defined.

(** ** The cursor only moves forward *)

Lemma suf_refl (p : cursor) : p `suffix_of` p.
Proof. reflexivity. Qed.

Lemma suf_adv (p q : cursor) : q `suffix_of` p -> adv q `suffix_of` p.
Proof. intros H. destruct q as [|c q]; [exact H|]. etrans; [apply suffix_cons_r; reflexivity | exact H]. Qed.

Lemma suf_skip (c : ascii) (p q : cursor) : q `suffix_of` p -> skip_char c q `suffix_of` p.
Proof. intros H. unfold skip_char. destruct (Ascii.eqb _ _); [apply suf_adv|]; exact H. Qed.

Lemma suf_if (b : bool) (x y p : cursor) :
  x `suffix_of` p -> y `suffix_of` p -> (if b then x else y) `suffix_of` p.
Proof. destruct b; auto. Qed.

Lemma suf_drop (n : nat) (p q : cursor) : q `suffix_of` p -> List.skipn n q `suffix_of` p.
Proof. intros H. etrans; [apply suffix_drop | exact H]. Qed.

Lemma parse_digits_suffix (p : cursor) (v : Z) : snd (parse_digits p v) `suffix_of` p.
Proof.
  revert v. induction p as [|c p IH]; intros v; cbn [parse_digits]; [reflexivity|].
  destruct (GSM_CHARISNUM c); [|reflexivity].
  etrans; [apply IH | apply suffix_cons_r; reflexivity].
Qed.

Lemma parse_hexdigits_suffix (p : cursor) (v : Z) : snd (parse_hexdigits p v) `suffix_of` p.
Proof.
  revert v. induction p as [|c p IH]; intros v; cbn [parse_hexdigits]; [reflexivity|].
  destruct (GSM_CHARISHEXNUM c); [|reflexivity].
  etrans; [apply IH | apply suffix_cons_r; reflexivity].
Qed.

Lemma parse_string_loop_suffix (p : cursor) (hd : bool) (i k : nat) (trim : bool) :
  snd (parse_string_loop p hd i k trim) `suffix_of` p.
Proof.
  revert i. induction p as [|c p IH]; intros i; cbn [parse_string_loop]; [reflexivity|].
  destruct (Ascii.eqb c NUL); [reflexivity|].
  destruct (Ascii.eqb c QUOTE && is_field_end (cur p)); [apply suffix_cons_r; reflexivity|].
  assert (Hs : forall j, snd (parse_string_loop p hd j k trim) `suffix_of` c :: p)
    by (intros j; etrans; [apply IH | apply suffix_cons_r; reflexivity]).
  destruct hd; [|apply Hs].
  destruct (i <? k)%nat.
  - specialize (Hs (S i)). destruct (parse_string_loop p true (S i) k trim). exact Hs.
  - destruct trim; [apply Hs | reflexivity].
Qed.

Lemma suf_digits (p q r : cursor) (v w : Z) :
  parse_digits q v = (w, r) -> q `suffix_of` p -> r `suffix_of` p.
Proof. intros E H. pose proof (parse_digits_suffix q v) as Hs. rewrite E in Hs. etrans; eauto. Qed.

Lemma suf_hexdigits (p q r : cursor) (v w : Z) :
  parse_hexdigits q v = (w, r) -> q `suffix_of` p -> r `suffix_of` p.
Proof. intros E H. pose proof (parse_hexdigits_suffix q v) as Hs. rewrite E in Hs. etrans; eauto. Qed.

Lemma suf_loop (p q r : cursor) (hd : bool) (i k : nat) (trim : bool) (w : list ascii) :
  parse_string_loop q hd i k trim = (w, r) -> q `suffix_of` p -> r `suffix_of` p.
Proof. intros E H. pose proof (parse_string_loop_suffix q hd i k trim) as Hs. rewrite E in Hs. etrans; eauto. Qed.

Create HintDb cursor_suffix.
#[local] Hint Resolve suf_refl suf_adv suf_skip suf_if suf_drop suf_digits suf_hexdigits suf_loop
  : cursor_suffix.

(** Splits the [let '(x, y) := e in ...] of a scanner into equations. *)
Ltac split_lets :=
  cbv beta iota zeta;
  repeat match goal with
  | |- context [match ?e with pair _ _ => _ end] => let E := fresh "E" in destruct e eqn:E
  end;
  cbn [fst snd].

Lemma parse_number_suffix (p : cursor) : snd (gsmi_parse_number p) `suffix_of` p.
Proof. unfold gsmi_parse_number. split_lets. eauto 40 with cursor_suffix. Qed.

Lemma parse_hexnumber_suffix (p : cursor) : snd (gsmi_parse_hexnumber p) `suffix_of` p.
Proof. unfold gsmi_parse_hexnumber. split_lets. eauto 40 with cursor_suffix. Qed.

Lemma parse_string_suffix (p : cursor) (hd : bool) (len : nat) (trim : bool) :
  snd (gsmi_parse_string p hd len trim) `suffix_of` p.
Proof. unfold gsmi_parse_string. split_lets. eauto 40 with cursor_suffix. Qed.

Lemma suf_number (p q r : cursor) (v : Z) :
  gsmi_parse_number q = (v, r) -> q `suffix_of` p -> r `suffix_of` p.
Proof. intros E H. pose proof (parse_number_suffix q) as Hs. rewrite E in Hs. etrans; eauto. Qed.

Lemma suf_hexnumber (p q r : cursor) (v : Z) :
  gsmi_parse_hexnumber q = (v, r) -> q `suffix_of` p -> r `suffix_of` p.
Proof. intros E H. pose proof (parse_hexnumber_suffix q) as Hs. rewrite E in Hs. etrans; eauto. Qed.

Lemma suf_string (p q r : cursor) (hd : bool) (len : nat) (trim : bool) (x : Z * option (list ascii)) :
  gsmi_parse_string q hd len trim = (x, r) -> q `suffix_of` p -> r `suffix_of` p.
Proof. intros E H. pose proof (parse_string_suffix q hd len trim) as Hs. rewrite E in Hs. etrans; eauto. Qed.

Lemma suf_string_snd (p q : cursor) (hd : bool) (len : nat) (trim : bool) :
  q `suffix_of` p -> snd (gsmi_parse_string q hd len trim) `suffix_of` p.
Proof. intros H. etrans; [apply parse_string_suffix | exact H]. Qed.

#[local] Hint Resolve suf_number suf_hexnumber suf_string suf_string_snd : cursor_suffix.

Lemma check_and_trim_suffix (p : cursor) : gsmi_check_and_trim p `suffix_of` p.
Proof. unfold gsmi_check_and_trim. eauto with cursor_suffix. Qed.

Lemma suf_trim (p q : cursor) : q `suffix_of` p -> gsmi_check_and_trim q `suffix_of` p.
Proof. intros H. etrans; [apply check_and_trim_suffix | exact H]. Qed.

#[local] Hint Resolve suf_trim : cursor_suffix.

Lemma parse_memory_suffix (map : list (list ascii * gsm_mem_t)) (unk : gsm_mem_t) (p : cursor) :
  snd (gsmi_parse_memory map unk p) `suffix_of` p.
Proof.
  unfold gsmi_parse_memory. cbv beta zeta.
  destruct (scan_mem_map map _) as [[m sl]|]; cbv beta iota; cbn [snd];
    eauto 20 with cursor_suffix.
Qed.

Lemma suf_memory (map : list (list ascii * gsm_mem_t)) (unk : gsm_mem_t) (p q r : cursor)
    (m : gsm_mem_t) :
  gsmi_parse_memory map unk q = (m, r) -> q `suffix_of` p -> r `suffix_of` p.
Proof. intros E H. pose proof (parse_memory_suffix map unk q) as Hs. rewrite E in Hs. etrans; eauto. Qed.

Lemma memories_loop_suffix (map : list (list ascii * gsm_mem_t)) (unk : gsm_mem_t)
    (fuel : nat) (p : cursor) (mask m : Z) (q : cursor) :
  memories_loop map unk fuel p mask = Some (m, q) -> q `suffix_of` p.
Proof.
  revert p mask. induction fuel as [|fuel IH]; intros p mask E; cbn [memories_loop] in E;
    [discriminate|].
  destruct (gsmi_parse_memory map unk p) as [mem p'] eqn:Em.
  pose proof (suf_memory map unk p p p' mem Em (suf_refl p)) as Hp.
  destruct (_ && _).
  - etrans; [exact (IH _ _ E) | exact Hp].
  - injection E as <- <-. exact Hp.
Qed.

#[local] Hint Resolve suf_memory : cursor_suffix.

Lemma parse_sms_status_suffix (p : cursor) (st : gsm_sms_status_t) :
  snd (gsmi_parse_sms_status p st) `suffix_of` p.
Proof. unfold gsmi_parse_sms_status. split_lets. repeat case_match; cbn [snd]; eauto with cursor_suffix. Qed.

Lemma parse_datetime_suffix (p : cursor) : snd (gsmi_parse_datetime p) `suffix_of` p.
Proof. unfold gsmi_parse_datetime. split_lets. eauto 40 with cursor_suffix. Qed.


(** ** SMS status texts *)

Definition nul_freeb (t : list ascii) : bool := forallb (fun c => negb (Ascii.eqb c NUL)) t.

Lemma nul_free_of_check (t : list ascii) :
  nul_freeb t = true -> Forall (fun c => c <> NUL) t.
Proof.
  induction t as [|c t IH]; cbn [nul_freeb forallb]; intros H; constructor.
  - apply andb_prop in H as [H _]. apply negb_true_iff in H.
    intros ->. rewrite Ascii.eqb_refl in H. discriminate.
  - apply IH. apply andb_prop in H as [_ H]. exact H.
Qed.

Lemma strncmp0_nul_free (n : nat) (a b : list ascii) :
  Forall (fun c => c <> NUL) a -> Forall (fun c => c <> NUL) b -> (length a < n)%nat ->
  strncmp0 n a b = if List.list_eq_dec ascii_dec a b then true else false.
Proof.
  intros Ha. revert n b. induction Ha as [|c a Hc Ha IH]; intros n b Hb Hn;
    (destruct n as [|n]; [cbn in Hn; lia|]); cbn [strncmp0].
  - destruct Hb as [|c' b Hc' Hb]; cbn [cur adv].
    + reflexivity.
    + change (Ascii.eqb NUL c') with (Ascii.eqb NUL c').
      destruct (Ascii.eqb_spec NUL c'); [congruence|]. reflexivity.
  - destruct Hb as [|c' b Hc' Hb]; cbn [cur adv].
    + rewrite (eqb_false_of_neq c NUL Hc). reflexivity.
    + destruct (Ascii.eqb_spec c c') as [<-|Hne]; cbn [negb].
      * rewrite (eqb_false_of_neq c NUL Hc). cbn [length] in Hn.
        rewrite (IH n b Hb ltac:(lia)).
        destruct (List.list_eq_dec ascii_dec a b), (List.list_eq_dec ascii_dec (c :: a) (c :: b));
          congruence.
      * destruct (List.list_eq_dec ascii_dec (c :: a) (c' :: b)); congruence.
Qed.

Lemma strcmp0_nul_free (a b : list ascii) :
  Forall (fun c => c <> NUL) a -> Forall (fun c => c <> NUL) b ->
  strcmp0 a b = if List.list_eq_dec ascii_dec a b then true else false.
Proof. intros Ha Hb. apply strncmp0_nul_free; [exact Ha | exact Hb | lia]. Qed.

(** The status texts of [gsmi_parse_sms_status], as a table. *)
Definition sms_status_texts : list (list ascii * gsm_sms_status_t) :=
  [(s "REC UNREAD", GSM_SMS_STATUS_UNREAD); (s "REC READ", GSM_SMS_STATUS_READ);
   (s "STO UNSENT", GSM_SMS_STATUS_UNSENT); (s "REC SENT", GSM_SMS_STATUS_SENT)].

Fixpoint text_lookup (x : list ascii) (tbl : list (list ascii * gsm_sms_status_t))
    : option gsm_sms_status_t :=
  match tbl with
  | [] => None
  | (k, v) :: tbl' => if List.list_eq_dec ascii_dec x k then Some v else text_lookup x tbl'
  end.

(** X9.  A quoted status field is read into the 11-byte buffer [t], so
    only its first 10 characters are compared: when they are one of the
    four status texts the status is stored and 1 returned, otherwise
    [*stat] is left alone and 0 returned; either way the cursor ends on
    the delimiter after the closing quote. *)
Theorem sms_status_field (t : list ascii) (d : ascii) (r : cursor) (stat : gsm_sms_status_t) :
  Forall field_char t -> is_field_end d = true ->
  gsmi_parse_sms_status (QUOTE :: t ++ QUOTE :: d :: r) stat
  = match text_lookup (firstn 10 t) sms_status_texts with
    | Some st => (1, st, d :: r)
    | None => (0, stat, d :: r)
    end.
Proof.
  intros Ht Hd. unfold gsmi_parse_sms_status.
  rewrite parse_string_field by assumption. cbv beta iota zeta. cbn [orb].
  rewrite c_str_nul_free by (apply field_nul_free, Ht).
  replace (11 - 1)%nat with 10%nat by reflexivity.
  pose proof (field_nul_free t 10 Ht) as Hx.
  rewrite !(strcmp0_nul_free (firstn 10 t)) by (exact Hx || (apply nul_free_of_check; reflexivity)).
  cbn [sms_status_texts text_lookup].
  destruct (List.list_eq_dec ascii_dec (firstn 10 t) (s "REC UNREAD")); [reflexivity|].
  destruct (List.list_eq_dec ascii_dec (firstn 10 t) (s "REC READ")); [reflexivity|].
  destruct (List.list_eq_dec ascii_dec (firstn 10 t) (s "STO UNSENT")); [reflexivity|].
  destruct (List.list_eq_dec ascii_dec (firstn 10 t) (s "REC SENT")); reflexivity.
Qed.

Lemma sms_status_field_witness :
  gsmi_parse_sms_status (QUOTE :: s "REC UNREAD!" ++ QUOTE :: COMMA :: s "x") GSM_SMS_STATUS_ALL
  = match text_lookup (firstn 10 (s "REC UNREAD!")) sms_status_texts with
    | Some st => (1, st, COMMA :: s "x")
    | None => (0, GSM_SMS_STATUS_ALL, COMMA :: s "x")
    end.
Proof.
  apply (sms_status_field (s "REC UNREAD!") COMMA (s "x") GSM_SMS_STATUS_ALL).
  - apply field_chars_of_check. vm_compute. reflexivity.
  - vm_compute. reflexivity.
Defined.

Lemma parse_string_into_field (t : list ascii) (d : ascii) (r : cursor) (buf : list ascii) :
  Forall field_char t -> is_field_end d = true ->
  parse_string_into (QUOTE :: t ++ QUOTE :: d :: r) buf true
  = (write_buf buf (firstn (length buf - 1) t ++ [NUL]), d :: r).
Proof.
  intros Ht Hd. unfold parse_string_into. rewrite parse_string_field by assumption. reflexivity.
Qed.

Lemma parse_number_field (ds rest : cursor) :
  ds <> [] -> Forall is_digit ds -> GSM_CHARISNUM (cur rest) = false ->
  gsmi_parse_number (ds ++ rest) = (wrap32 (digits_value ds), skip_char COMMA rest).
Proof. intros H1 H2 H3. exact (parse_number_run false ds rest H1 H2 H3). Qed.

(** The C string a field leaves in a buffer of nonzero size. *)
Lemma write_field_c_str (buf t : list ascii) :
  Forall field_char t -> buf <> [] ->
  c_str (write_buf buf (firstn (length buf - 1) t ++ [NUL])) = firstn (length buf - 1) t
  /\ length (write_buf buf (firstn (length buf - 1) t ++ [NUL])) = length buf.
Proof.
  intros Ht Hb. assert (length buf <> 0)%nat by (destruct buf; cbn; [congruence | lia]).
  split.
  - apply write_buf_c_str, field_nul_free, Ht.
  - apply write_buf_length. rewrite length_app, List.length_firstn. cbn. lia.
Qed.

Lemma neq_CR_0 : "0"%char <> CR. Proof. cbv; discriminate. Qed.
Lemma neq_CR_1 : "1"%char <> CR. Proof. cbv; discriminate. Qed.
Lemma neq_CR_QUOTE : QUOTE <> CR. Proof. cbv; discriminate. Qed.

(** The line +COPS: <mode>,<fmt>,"<name>" with a closing CR. *)
Definition cops_name_line (mode_ds : cursor) (fmt : ascii) (t r : cursor) : cursor :=
  s "+COPS: " ++ mode_ds ++ COMMA :: fmt :: COMMA :: QUOTE :: t ++ QUOTE :: CR :: r.

Definition cops_op (str : cursor) (g : gsm_t) : gsm_operator_curr_t :=
  net_curr_operator (network (snd (gsmi_parse_cops str g))).

(** X10.  On the line +COPS: <mode>,0,"<name>" the current operator takes the
    mode and the long-name format, and its long-name buffer (of nonzero
    size) holds the first [sizeof - 1] characters of the name as a C
    string, with its size unchanged; format 1 does the same for the
    short-name buffer.  In C both names are views of one union, so only
    the view written is described. *)
Theorem cops_name_roundtrip (mode_ds t r : cursor) (g : gsm_t) :
  mode_ds <> [] -> Forall is_digit mode_ds -> Forall field_char t ->
  let op := net_curr_operator (network g) in
  (op_long_name op <> [] ->
   let op' := cops_op (cops_name_line mode_ds "0"%char t r) g in
   op_mode op' = wrap32 (digits_value mode_ds) /\ op_format op' = GSM_OPERATOR_FORMAT_LONG_NAME
   /\ c_str (op_long_name op') = firstn (length (op_long_name op) - 1) t
   /\ length (op_long_name op') = length (op_long_name op))
  /\ (op_short_name op <> [] ->
   let op' := cops_op (cops_name_line mode_ds "1"%char t r) g in
   op_mode op' = wrap32 (digits_value mode_ds) /\ op_format op' = GSM_OPERATOR_FORMAT_SHORT_NAME
   /\ c_str (op_short_name op') = firstn (length (op_short_name op) - 1) t
   /\ length (op_short_name op') = length (op_short_name op)).
Proof.
  intros Hne Hds Ht. cbv zeta.
  split; intros Hb; unfold cops_op, gsmi_parse_cops, cops_name_line; cbv zeta;
  change (skip_prefix (s "+COPS: " ++ ?x)) with x;
  rewrite parse_number_field by (auto; reflexivity);
  change (skip_char COMMA (COMMA :: ?x)) with x;
  [change (gsmi_parse_number ("0"%char :: COMMA :: ?x)) with (0, x)
  |change (gsmi_parse_number ("1"%char :: COMMA :: ?x)) with (1, x)];
  cbv beta iota; cbn [cur];
  rewrite ?(eqb_false_of_neq _ _ neq_CR_0), ?(eqb_false_of_neq _ _ neq_CR_1),
    ?(eqb_false_of_neq _ _ neq_CR_QUOTE);
  [change (0 =? GSM_OPERATOR_FORMAT_LONG_NAME) with true
  |change (1 =? GSM_OPERATOR_FORMAT_LONG_NAME) with false;
   change (1 =? GSM_OPERATOR_FORMAT_SHORT_NAME) with true];
  cbv beta iota; cbn [negb];
  rewrite parse_string_into_field by (auto; reflexivity);
  change (msg (set_network ?n g)) with (msg g);
  (destruct (msg g) as [m|]; [destruct (cmd_eqb (cmd_def m) GSM_CMD_COPS_GET);
      [destruct (cops_get_curr m)|]|]); cbn [snd network set_msg set_network set_curr_operator
        net_curr_operator set_op_long_name set_op_short_name set_op_format set_op_mode
        op_mode op_format op_long_name op_short_name];
    (split; [reflexivity | split; [reflexivity | apply write_field_c_str; assumption]]).
Qed.

(** An operator record with both name buffers allocated. *)
Definition gsm_named : gsm_t :=
  mk_gsm (mk_network 0 (mk_operator_curr 0 0 (repeat NUL 20) (repeat NUL 10) 0))
    GSM_SIM_STATE_NOT_READY [] None [] [].

Lemma cops_name_roundtrip_witness :
  let op := net_curr_operator (network gsm_named) in
  (op_long_name op <> [] ->
   let op' := cops_op (cops_name_line (s "0") "0"%char (s "Operator") [LF]) gsm_named in
   op_mode op' = wrap32 (digits_value (s "0")) /\ op_format op' = GSM_OPERATOR_FORMAT_LONG_NAME
   /\ c_str (op_long_name op') = firstn (length (op_long_name op) - 1) (s "Operator")
   /\ length (op_long_name op') = length (op_long_name op))
  /\ (op_short_name op <> [] ->
   let op' := cops_op (cops_name_line (s "0") "1"%char (s "Operator") [LF]) gsm_named in
   op_mode op' = wrap32 (digits_value (s "0")) /\ op_format op' = GSM_OPERATOR_FORMAT_SHORT_NAME
   /\ c_str (op_short_name op') = firstn (length (op_short_name op) - 1) (s "Operator")
   /\ length (op_short_name op') = length (op_short_name op)).
Proof.
  apply (cops_name_roundtrip (s "0") (s "Operator") [LF] gsm_named).
  - discriminate.
  - repeat constructor.
  - apply field_chars_of_check. vm_compute. reflexivity.
Defined.

(** X11.  A +COPS line that carries only the mode, "+COPS: <mode>"
    ended by CR, sets the mode, marks the format invalid and leaves the
    operator's name and number payload as it was. *)
Theorem cops_mode_only (mode_ds r : cursor) (g : gsm_t) :
  mode_ds <> [] -> Forall is_digit mode_ds ->
  let op := net_curr_operator (network g) in
  cops_op (s "+COPS: " ++ mode_ds ++ CR :: r) g
  = mk_operator_curr (wrap32 (digits_value mode_ds)) GSM_OPERATOR_FORMAT_INVALID
      (op_long_name op) (op_short_name op) (op_num op).
Proof.
  intros Hne Hds. cbv zeta. unfold cops_op, gsmi_parse_cops. cbv zeta.
  change (skip_prefix (s "+COPS: " ++ ?x)) with x.
  rewrite parse_number_field by (auto; reflexivity).
  change (skip_char COMMA (CR :: ?x)) with (CR :: x).
  cbv beta iota. cbn [cur]. rewrite Ascii.eqb_refl. cbn [negb].
  change (msg (set_network ?n g)) with (msg g).
  destruct (msg g) as [m|]; [destruct (cmd_eqb (cmd_def m) GSM_CMD_COPS_GET);
      [destruct (cops_get_curr m)|]|]; reflexivity.
Qed.

Lemma cops_mode_only_witness :
  let op := net_curr_operator (network gsm_named) in
  cops_op (s "+COPS: " ++ s "1" ++ CR :: [LF]) gsm_named
  = mk_operator_curr (wrap32 (digits_value (s "1"))) GSM_OPERATOR_FORMAT_INVALID
      (op_long_name op) (op_short_name op) (op_num op).
Proof. apply (cops_mode_only (s "1") [LF] gsm_named); [discriminate | repeat constructor]. Defined.

Lemma strncmp0_firstn (n : nat) (a b : list ascii) :
  Forall (fun c => c <> NUL) a -> Forall (fun c => c <> NUL) b ->
  strncmp0 n a b = if List.list_eq_dec ascii_dec (firstn n a) (firstn n b) then true else false.
Proof.
  revert a b. induction n as [|n IH]; intros a b Ha Hb; cbn [strncmp0 firstn]; [reflexivity|].
  destruct Ha as [|c a Hc Ha], Hb as [|c' b Hc' Hb]; cbn [cur adv firstn].
  - reflexivity.
  - destruct (Ascii.eqb_spec NUL c'); [congruence|]. reflexivity.
  - rewrite (eqb_false_of_neq c NUL Hc). reflexivity.
  - destruct (Ascii.eqb_spec c c') as [<-|Hne]; cbn [negb].
    + rewrite (eqb_false_of_neq c NUL Hc), (IH a b Ha Hb).
      destruct (List.list_eq_dec ascii_dec (firstn n a) (firstn n b)),
        (List.list_eq_dec ascii_dec (c :: firstn n a) (c :: firstn n b)); congruence.
    + destruct (List.list_eq_dec ascii_dec (c :: firstn n a) (c' :: firstn n b)); congruence.
Qed.

(** The state texts of [gsmi_parse_cpin] with the number of characters
    compared, in the order they are tried. *)
Definition sim_state_texts : list (list ascii * nat * gsm_sim_state_t) :=
  [(s "READY", 5%nat, GSM_SIM_STATE_READY); (s "NOT READY", 9%nat, GSM_SIM_STATE_NOT_READY);
   (s "NOT INSERTED", 14%nat, GSM_SIM_STATE_NOT_INSERTED);
   (s "SIM PIN", 7%nat, GSM_SIM_STATE_PIN); (s "PIN PUK", 7%nat, GSM_SIM_STATE_PUK)].

Fixpoint sim_text_lookup (w : list ascii) (tbl : list (list ascii * nat * gsm_sim_state_t))
    : gsm_sim_state_t :=
  match tbl with
  | [] => GSM_SIM_STATE_NOT_READY
  | (k, n, st) :: tbl' =>
      if List.list_eq_dec ascii_dec (firstn n w) (firstn n k) then st
      else sim_text_lookup w tbl'
  end.

Definition sim_info_request (st : gsm_sim_state_t) : list gsm_cmd_t :=
  match st with GSM_SIM_STATE_READY => [GSM_CMD_SIM_INFO] | _ => [] end.

(** X12.  On "+CPIN: <text>" the SIM state is the first entry of
    [sim_state_texts] whose first n characters agree with those of the
    text (so "READY", "NOT READY", "SIM PIN" and "PIN PUK" are prefixes,
    while "NOT INSERTED" must be the whole rest of the line), and
    NOT_READY when none agrees.  The SIM information command is requested
    exactly when the state is READY, one CPIN event carrying the new state
    is sent exactly when [send_evt] is set, and the network, SMS memories
    and active command are left alone. *)
Theorem cpin_state_text (w : list ascii) (send_evt : bool) (g : gsm_t) :
  Forall (fun c => c <> NUL) w ->
  let g' := snd (gsmi_parse_cpin (s "+CPIN: " ++ w) send_evt g) in
  let st := sim_text_lookup w sim_state_texts in
  sim_state g' = st
  /\ requests g' = requests g ++ sim_info_request st
  /\ events g' = events g ++ (if send_evt then [GSM_CB_CPIN st] else [])
  /\ network g' = network g /\ sms_mem g' = sms_mem g /\ msg g' = msg g.
Proof.
  intros Hw. cbv zeta. unfold gsmi_parse_cpin. cbv zeta.
  change (skip_prefix (s "+CPIN: " ++ ?x)) with x.
  rewrite !(strncmp0_firstn _ w) by (exact Hw || (apply nul_free_of_check; reflexivity)).
  cbn [sim_state_texts sim_text_lookup].
  destruct (List.list_eq_dec ascii_dec (firstn 5 w) (firstn 5 (s "READY")));
  [|destruct (List.list_eq_dec ascii_dec (firstn 9 w) (firstn 9 (s "NOT READY")));
  [|destruct (List.list_eq_dec ascii_dec (firstn 14 w) (firstn 14 (s "NOT INSERTED")));
  [|destruct (List.list_eq_dec ascii_dec (firstn 7 w) (firstn 7 (s "SIM PIN")));
  [|destruct (List.list_eq_dec ascii_dec (firstn 7 w) (firstn 7 (s "PIN PUK")))]]]];
  destruct send_evt; cbn; rewrite ?app_nil_r; repeat split.
Qed.

Lemma cpin_state_text_witness :
  let g' := snd (gsmi_parse_cpin (s "+CPIN: " ++ s "SIM PIN2" ++ [CR; LF]) true gsm_init) in
  let st := sim_text_lookup (s "SIM PIN2" ++ [CR; LF]) sim_state_texts in
  sim_state g' = st
  /\ requests g' = requests gsm_init ++ sim_info_request st
  /\ events g' = events gsm_init ++ (if true then [GSM_CB_CPIN st] else [])
  /\ network g' = network gsm_init /\ sms_mem g' = sms_mem gsm_init /\ msg g' = msg gsm_init.
Proof.
  apply (cpin_state_text (s "SIM PIN2" ++ [CR; LF]) true gsm_init).
  apply nul_free_of_check. vm_compute. reflexivity.
Defined.

Definition ops_shape (o : gsm_operator_t) : nat * nat :=
  (length (ops_long_name o), length (ops_short_name o)).

Definition scan_ok (cs : cops_scan_t) : Prop :=
  (cs_opsi cs <= cs_opsl cs)%nat /\ (forall v, cs_opf cs = Some v -> v = cs_opsi cs).

Lemma insert_shape (i : nat) (o o' : gsm_operator_t) (ops : list gsm_operator_t) :
  ops !! i = Some o -> ops_shape o' = ops_shape o ->
  ops_shape <$> <[i := o']> ops = ops_shape <$> ops.
Proof.
  intros Hi Hs. rewrite list_fmap_insert, Hs. apply list_insert_id.
  rewrite list_lookup_fmap, Hi. reflexivity.
Qed.

Lemma update_at_shape (f : gsm_operator_t -> gsm_operator_t) (i : nat) (ops : list gsm_operator_t) :
  (forall o, ops_shape (f o) = ops_shape o) ->
  ops_shape <$> update_at f i ops = ops_shape <$> ops.
Proof.
  intros Hf. unfold update_at. destruct (ops !! i) eqn:E; [|reflexivity].
  apply (insert_shape i g); [exact E | apply Hf].
Qed.

Lemma put_name_char_length (name : list ascii) (tp : nat) (ch : ascii) :
  length (put_name_char name tp ch) = length name.
Proof. unfold put_name_char. rewrite !length_insert. reflexivity. Qed.

Lemma scan_data_shape (u : scan_state) (ch : ascii) (i : nat) (ops : list gsm_operator_t) :
  ops_shape <$> snd (scan_data u ch i ops) = ops_shape <$> ops.
Proof.
  unfold scan_data.
  destruct (sc_tn u) as [|[|[|[|n]]]]; cbn [snd];
    try (apply update_at_shape; reflexivity); try reflexivity;
    (destruct (ops !! i) as [o|] eqn:E; [|reflexivity];
     case_match; [|reflexivity]; cbn [snd]; apply (insert_shape i o); [exact E|];
     unfold ops_shape; cbn; rewrite put_name_char_length; reflexivity).
Qed.

Lemma cops_scan_step_ok (ch : ascii) (u : scan_state) (cs : cops_scan_t) :
  scan_ok cs ->
  let cs' := snd (gsmi_parse_cops_scan ch false u cs) in
  scan_ok cs' /\ cs_opsl cs' = cs_opsl cs /\ (cs_opsi cs <= cs_opsi cs')%nat
  /\ (cs_opf cs' = None <-> cs_opf cs = None) /\ ops_shape <$> cs_ops cs' = ops_shape <$> cs_ops cs.
Proof.
  intros [Hle Hf]. cbv zeta. unfold gsmi_parse_cops_scan.
  repeat case_match; simplify_eq; cbn [snd cs_opsl cs_opsi cs_opf cs_ops set_ops] in *.
  all: try (match goal with
    | E : scan_data _ _ _ _ = (_, ?l) |- _ =>
        let Hs := fresh in pose proof (f_equal (fmap ops_shape) (f_equal snd E)) as Hs;
        cbn [snd] in Hs; rewrite scan_data_shape in Hs
    end).
  all: repeat match goal with H : (_ || _) = false |- _ => apply orb_false_iff in H as [? ?] end.
  all: repeat match goal with H : (_ <=? _)%nat = false |- _ => apply Nat.leb_gt in H end.
  all: unfold scan_ok; cbn [cs_opsl cs_opsi cs_opf cs_ops set_ops]; repeat split;
    try lia; try congruence; auto.
Qed.

(** X13.  Whatever characters the +COPS=? scan is fed, it keeps its record
    count within the array ([opsi <= opsl]) and never decreases it, never
    changes [opsl], keeps a present observer [*opf] equal to the count and
    an absent one absent, and never changes the number of records or the
    size of any name buffer. *)
Theorem cops_scan_feed_ok (chs : list ascii) (u : scan_state) (cs : cops_scan_t) :
  scan_ok cs ->
  let cs' := snd (cops_scan_feed chs u cs) in
  scan_ok cs' /\ cs_opsl cs' = cs_opsl cs /\ (cs_opsi cs <= cs_opsi cs')%nat
  /\ (cs_opf cs' = None <-> cs_opf cs = None) /\ ops_shape <$> cs_ops cs' = ops_shape <$> cs_ops cs.
Proof.
  cbv zeta. revert u cs. induction chs as [|ch chs IH]; intros u cs Hok; cbn [cops_scan_feed].
  - cbn [snd]. repeat split; auto; apply Hok.
  - pose proof (cops_scan_step_ok ch u cs Hok) as Hs. cbv zeta in Hs.
    destruct (gsmi_parse_cops_scan ch false u cs) as [[rv u'] cs'].
    cbn [snd] in Hs. destruct Hs as (Hok' & H1 & H2 & H3 & H4).
    destruct (IH u' cs' Hok') as (Hok'' & H1' & H2' & H3' & H4').
    split; [exact Hok''|]. split; [congruence|]. split; [lia|].
    split; [rewrite H3'; exact H3 | congruence].
Qed.

Lemma cops_scan_feed_ok_witness :
  let cs := mk_cops_scan [op_blank; op_blank] 2 0 (Some 0%nat) in
  let cs' := snd (cops_scan_feed (s "(1,Operator,Op,29341),(0,1)") scan_reset cs) in
  scan_ok cs' /\ cs_opsl cs' = cs_opsl cs /\ (cs_opsi cs <= cs_opsi cs')%nat
  /\ (cs_opf cs' = None <-> cs_opf cs = None) /\ ops_shape <$> cs_ops cs' = ops_shape <$> cs_ops cs.
Proof.
  apply (cops_scan_feed_ok (s "(1,Operator,Op,29341),(0,1)") scan_reset
           (mk_cops_scan [op_blank; op_blank] 2 0 (Some 0%nat))).
  split; cbn; [lia | intros v Hv; injection Hv as <-; reflexivity].
Defined.

Lemma cpbr_step (str : cursor) (g : gsm_t) (m : gsm_msg_t) :
  msg g = Some m -> cmd_def m = GSM_CMD_CPBR ->
  gsmi_parse_cpbr str g
  = if (pl_ei (pb_list m) <? pl_etr (pb_list m))%nat
    then (1, set_msg (Some (set_pb_list (pb_add (skip_prefix str) (pb_list m)) m)) g)
    else (0, g).
Proof.
  intros Hm Hc. unfold gsmi_parse_cpbr. rewrite Hm, Hc. cbn [cmd_eqb andb]. reflexivity.
Qed.

Lemma update_at_take_drop {A} (f : A -> A) (i n : nat) (l : list A) :
  (i < n)%nat ->
  length (update_at f i l) = length l /\ take i (update_at f i l) = take i l
  /\ drop n (update_at f i l) = drop n l.
Proof.
  intros Hn. unfold update_at. destruct (l !! i); [|auto].
  rewrite length_insert, take_insert_ge, drop_insert_lt by lia. auto.
Qed.

(** X14.  Feeding +CPBR lines one after another while a phonebook read is
    active: the first [min (number of lines, etr - ei)] lines are accepted
    with 1 and the rest refused with 0; the write cursor advances by the
    number accepted, a present [*er] follows it, the capacity stays, and
    only the entries from [ei] up to the new cursor are written; the search
    list and the SMS list are not touched. *)
Theorem cpbr_lines_fill (ls : list cursor) (g : gsm_t) (m : gsm_msg_t) :
  msg g = Some m -> cmd_def m = GSM_CMD_CPBR ->
  let pl := pb_list m in
  let n := Nat.min (length ls) (pl_etr pl - pl_ei pl) in
  fst (cpbr_lines ls g) = repeat 1 n ++ repeat 0 (length ls - n)
  /\ exists m', msg (snd (cpbr_lines ls g)) = Some m' /\ cmd_def m' = GSM_CMD_CPBR
     /\ pb_search m' = pb_search m /\ sms_list m' = sms_list m
     /\ pl_ei (pb_list m') = (pl_ei pl + n)%nat /\ pl_etr (pb_list m') = pl_etr pl
     /\ pl_er (pb_list m') = (if (n =? 0)%nat then pl_er pl
                              else option_map (fun _ => (pl_ei pl + n)%nat) (pl_er pl))
     /\ length (pl_entries (pb_list m')) = length (pl_entries pl)
     /\ take (pl_ei pl) (pl_entries (pb_list m')) = take (pl_ei pl) (pl_entries pl)
     /\ drop (pl_ei pl + n) (pl_entries (pb_list m')) = drop (pl_ei pl + n) (pl_entries pl).
Proof.
  cbv zeta. revert g m. induction ls as [|l ls IH]; intros g m Hm Hc.
  - cbn. split; [reflexivity|]. exists m.
    rewrite Hm. rewrite Nat.add_0_r. repeat split; auto.
  - cbn [cpbr_lines]. rewrite (cpbr_step l g m Hm Hc). cbn [length].
    destruct (Nat.ltb_spec (pl_ei (pb_list m)) (pl_etr (pb_list m))) as [Hlt|Hge].
    + set (m1 := set_pb_list (pb_add (skip_prefix l) (pb_list m)) m).
      set (g1 := set_msg (Some m1) g).
      destruct (IH g1 m1 eq_refl Hc) as [Hr (m' & Hm' & Hc' & Hs' & Hl' & Hei & Het & Her & Hlen & Ht & Hd)].
      destruct (cpbr_lines ls g1) as [rs g'] eqn:E. cbn [fst snd] in *.
      cbn [m1 set_pb_list pb_list pb_add pl_ei pl_etr pl_er pl_entries pb_search sms_list] in *.
      set (ei := pl_ei (pb_list m)) in *. set (etr := pl_etr (pb_list m)) in *.
      set (n1 := Nat.min (length ls) (etr - S ei)) in *.
      assert (Hn : Nat.min (S (length ls)) (etr - ei) = S n1)
        by (subst n1; replace (etr - ei)%nat with (S (etr - S ei)) by lia; reflexivity).
      rewrite Hn.
      pose proof (update_at_take_drop (pb_fill (skip_prefix l)) ei (ei + S n1)
                    (pl_entries (pb_list m)) ltac:(lia)) as (U1 & U2 & U3).
      split; [rewrite Hr; reflexivity|].
      exists m'. split; [exact Hm'|]. split; [exact Hc'|]. split; [exact Hs'|]. split; [exact Hl'|].
      split; [lia|]. split; [exact Het|].
      split.
      { rewrite Her. destruct (pl_er (pb_list m)); cbn; [|destruct (n1 =? 0)%nat; reflexivity].
        destruct (Nat.eqb_spec n1 0) as [->|]; f_equal; lia. }
      split; [rewrite Hlen; exact U1|].
      split.
      { rewrite <- U2.
        assert (Htt : forall x : list gsm_pb_entry_t, take ei x = take ei (take (S ei) x))
          by (intros x; rewrite take_take; f_equal; lia).
        rewrite (Htt (pl_entries (pb_list m'))), Ht, <- Htt. reflexivity. }
      { rewrite <- U3. replace (ei + S n1)%nat with (S ei + n1)%nat by lia. exact Hd. }
    + destruct (IH g m Hm Hc) as [Hr Hrest].
      destruct (cpbr_lines ls g) as [rs g'] eqn:E. cbn [fst snd] in *.
      replace (pl_etr (pb_list m) - pl_ei (pb_list m))%nat with 0%nat in * by lia.
      rewrite !Nat.min_0_r in *. cbn. rewrite Hr, Nat.sub_0_r. split; [reflexivity | exact Hrest].
Qed.

(** A phonebook read into two free entries, with an observer. *)
Definition gsm_cpbr_active : gsm_t :=
  set_msg (Some (mk_msg GSM_CMD_CPBR None (mk_sms_list 0 [] 0 0 None)
                   (mk_pb_list [pb_blank; pb_blank] 2 0 (Some 0%nat)) pb_list_empty
                   cops_scan_empty)) gsm_init.

Definition cpbr_active_msg : gsm_msg_t :=
  mk_msg GSM_CMD_CPBR None (mk_sms_list 0 [] 0 0 None)
    (mk_pb_list [pb_blank; pb_blank] 2 0 (Some 0%nat)) pb_list_empty cops_scan_empty.

Definition cpbr_three_lines : list cursor :=
  [s "+CPBR: 1,Ann,129,111"; s "+CPBR: 2,Bob,129,222"; s "+CPBR: 3,Cid,129,333"].

Lemma cpbr_lines_fill_witness :
  let pl := pb_list cpbr_active_msg in
  let n := Nat.min (length cpbr_three_lines) (pl_etr pl - pl_ei pl) in
  fst (cpbr_lines cpbr_three_lines gsm_cpbr_active) = repeat 1 n ++ repeat 0 (length cpbr_three_lines - n)
  /\ exists m', msg (snd (cpbr_lines cpbr_three_lines gsm_cpbr_active)) = Some m'
     /\ cmd_def m' = GSM_CMD_CPBR
     /\ pb_search m' = pb_search cpbr_active_msg /\ sms_list m' = sms_list cpbr_active_msg
     /\ pl_ei (pb_list m') = (pl_ei pl + n)%nat /\ pl_etr (pb_list m') = pl_etr pl
     /\ pl_er (pb_list m') = (if (n =? 0)%nat then pl_er pl
                              else option_map (fun _ => (pl_ei pl + n)%nat) (pl_er pl))
     /\ length (pl_entries (pb_list m')) = length (pl_entries pl)
     /\ take (pl_ei pl) (pl_entries (pb_list m')) = take (pl_ei pl) (pl_entries pl)
     /\ drop (pl_ei pl + n) (pl_entries (pb_list m')) = drop (pl_ei pl + n) (pl_entries pl).
Proof. apply (cpbr_lines_fill cpbr_three_lines gsm_cpbr_active cpbr_active_msg); reflexivity. Defined.

(** X15.  A +CMGL list line is an index followed by the fields of a +CMGR
    read: the entry [entries[ei]] that [gsmi_parse_cmgl] fills from
    "+CMGL: <index>,<body>" has the listing's memory and the index as its
    position, and the status, number, name and date that [gsmi_parse_cmgr]
    reads from "+CMGR: <body>" into the same entry. *)
Theorem cmgl_entry_as_cmgr (idx body : cursor) (g : gsm_t) (m : gsm_msg_t) (e : gsm_sms_entry_t) :
  idx <> [] -> Forall is_digit idx ->
  msg g = Some m -> cmd_def m = GSM_CMD_CMGL ->
  let sl := sms_list m in
  (sl_ei sl < sl_etr sl)%nat -> sl_entries sl !! sl_ei sl = Some e ->
  exists m', msg (snd (gsmi_parse_cmgl (s "+CMGL: " ++ idx ++ COMMA :: body) g)) = Some m'
   /\ sl_entries (sms_list m') !! sl_ei sl
      = Some (let e' := snd (gsmi_parse_cmgr (s "+CMGR: " ++ body) e) in
              mk_sms_entry (sl_mem sl) (to_u32 (wrap32 (digits_value idx)))
                (se_status e') (se_number e') (se_name e') (se_datetime e')).
Proof.
  intros Hne Hds Hm Hc. cbv zeta. intros Hlt He.
  unfold gsmi_parse_cmgl. rewrite Hm, (guard_true GSM_CMD_CMGL m _ _ Hc Hlt).
  eexists. split; [reflexivity|]. cbn [set_sms_list sms_list sl_entries].
  unfold update_at. rewrite He.
  rewrite list_lookup_insert_eq by (eapply lookup_lt_Some; exact He). f_equal.
  change (skip_prefix (s "+CMGL: " ++ ?x)) with x.
  unfold cmgl_fill. rewrite parse_number_field by (auto; reflexivity).
  change (skip_char COMMA (COMMA :: ?x)) with x.
  unfold gsmi_parse_cmgr. change (skip_prefix (s "+CMGR: " ++ ?x)) with x.
  split_lets. reflexivity.
Qed.

Definition cmgl_active_msg : gsm_msg_t :=
  mk_msg GSM_CMD_CMGL None (mk_sms_list 0 [sms_blank; sms_blank] 2 0 None)
    pb_list_empty pb_list_empty cops_scan_empty.

Lemma cmgl_entry_as_cmgr_witness :
  let sl := sms_list cmgl_active_msg in
  exists m', msg (snd (gsmi_parse_cmgl (s "+CMGL: " ++ s "3" ++ COMMA :: s "REC READ") gsm_cmgl_active))
             = Some m'
   /\ sl_entries (sms_list m') !! sl_ei sl
      = Some (let e' := snd (gsmi_parse_cmgr (s "+CMGR: " ++ s "REC READ") sms_blank) in
              mk_sms_entry (sl_mem sl) (to_u32 (wrap32 (digits_value (s "3"))))
                (se_status e') (se_number e') (se_name e') (se_datetime e')).
Proof.
  apply (cmgl_entry_as_cmgr (s "3") (s "REC READ") gsm_cmgl_active cmgl_active_msg sms_blank);
    try reflexivity.
  - discriminate.
  - repeat constructor.
  - cbn. lia.
Defined.

Lemma parse_number_comma (ds rest : cursor) :
  ds <> [] -> Forall is_digit ds ->
  gsmi_parse_number (COMMA :: ds ++ rest) = gsmi_parse_number (ds ++ rest).
Proof.
  intros Hne Hds. destruct ds as [|d ds']; [congruence|].
  inversion Hds as [|? ? Hd Hds']; subst.
  destruct (nonskip_of_digit d Hd) as (h1 & h2 & h3 & h4 & h5 & h6).
  unfold gsmi_parse_number.
  change (skip_char QUOTE (COMMA :: ?x)) with (COMMA :: x).
  change (skip_char COMMA (COMMA :: ?x)) with x. cbn [app].
  rewrite !(skip_char_id _ (d :: ds' ++ rest)) by (cbn [cur]; assumption).
  reflexivity.
Qed.

(** A decimal field: a non-empty run of digits. *)
Definition dec_field (ds : cursor) : Prop := ds <> [] /\ Forall is_digit ds.

(** The line +CLCC: <id>,<dir>,<state>,<type>,<mpty>,"<number>",<type>,"<name>" with a closing CR. *)
Definition clcc_line (id dir st ty mp : cursor) (num : list ascii) (at_ : cursor)
    (name : list ascii) (r : cursor) : cursor :=
  s "+CLCC: " ++ id ++ COMMA :: dir ++ COMMA :: st ++ COMMA :: ty ++ COMMA :: mp ++ COMMA
  :: QUOTE :: num ++ QUOTE :: COMMA :: at_ ++ COMMA :: QUOTE :: name ++ QUOTE :: CR :: r.

(** X16.  Round trip of a +CLCC line whose numeric fields are digit runs
    and whose number and name are quoted: the call record receives the
    five leading numbers and the address type (as the [int32_t] scanner
    reads them), and the number and name buffers (of nonzero size) hold
    the first [sizeof - 1] characters of each field as C strings, keeping
    their size; one CALL_CHANGED event is sent exactly when [send_evt] is
    set. *)
Theorem clcc_roundtrip (id dir st ty mp at_ : cursor) (num name r : list ascii)
    (send_evt : bool) (n : gsm_notify_t) :
  dec_field id -> dec_field dir -> dec_field st -> dec_field ty -> dec_field mp ->
  dec_field at_ -> Forall field_char num -> Forall field_char name ->
  call_number (nt_call n) <> [] -> call_name (nt_call n) <> [] ->
  let c := nt_call n in
  let n' := snd (gsmi_parse_clcc (clcc_line id dir st ty mp num at_ name r) send_evt n) in
  let c' := nt_call n' in
  call_id c' = wrap32 (digits_value id) /\ call_dir c' = wrap32 (digits_value dir)
  /\ call_state c' = wrap32 (digits_value st) /\ call_type c' = wrap32 (digits_value ty)
  /\ call_is_multipart c' = wrap32 (digits_value mp)
  /\ c_str (call_number c') = firstn (length (call_number c) - 1) num
  /\ length (call_number c') = length (call_number c)
  /\ call_addr_type c' = wrap32 (digits_value at_)
  /\ c_str (call_name c') = firstn (length (call_name c) - 1) name
  /\ length (call_name c') = length (call_name c)
  /\ nt_sent n' = nt_sent n ++ (if send_evt then [GSM_CB_CALL_CHANGED] else []).
Proof.
  intros [H1 H1'] [H2 H2'] [H3 H3'] [H4 H4'] [H5 H5'] [H6 H6'] Hnum Hname Hb1 Hb2. cbv zeta.
  unfold gsmi_parse_clcc, clcc_line. cbv zeta.
  change (skip_prefix (s "+CLCC: " ++ ?x)) with x.
  repeat (first [ rewrite parse_number_comma by assumption
                | rewrite parse_number_field by (auto; reflexivity)
                | rewrite parse_string_into_field by (auto; reflexivity) ];
          cbv beta iota; repeat change (skip_char COMMA (COMMA :: ?x)) with x).
  destruct (write_field_c_str (call_number (nt_call n)) num Hnum Hb1) as [Hc1 Hl1].
  destruct (write_field_c_str (call_name (nt_call n)) name Hname Hb2) as [Hc2 Hl2].
  destruct send_evt; cbn; rewrite ?app_nil_r; repeat split; assumption.
Qed.

(** A call record with allocated number and name buffers. *)
Definition notify_example : gsm_notify_t :=
  mk_notify (mk_call 0 0 0 0 0 (repeat NUL 16) 0 (repeat NUL 16)) (mk_cb_data false 0 0%nat 0) [].

Lemma clcc_roundtrip_witness :
  let c := nt_call notify_example in
  let n' := snd (gsmi_parse_clcc (clcc_line (s "1") (s "0") (s "0") (s "0") (s "0")
                   (s "+4912345") (s "145") (s "Bob") [LF]) true notify_example) in
  let c' := nt_call n' in
  call_id c' = wrap32 (digits_value (s "1")) /\ call_dir c' = wrap32 (digits_value (s "0"))
  /\ call_state c' = wrap32 (digits_value (s "0")) /\ call_type c' = wrap32 (digits_value (s "0"))
  /\ call_is_multipart c' = wrap32 (digits_value (s "0"))
  /\ c_str (call_number c') = firstn (length (call_number c) - 1) (s "+4912345")
  /\ length (call_number c') = length (call_number c)
  /\ call_addr_type c' = wrap32 (digits_value (s "145"))
  /\ c_str (call_name c') = firstn (length (call_name c) - 1) (s "Bob")
  /\ length (call_name c') = length (call_name c)
  /\ nt_sent n' = nt_sent notify_example ++ (if true then [GSM_CB_CALL_CHANGED] else []).
Proof.
  apply (clcc_roundtrip (s "1") (s "0") (s "0") (s "0") (s "0") (s "145") (s "+4912345")
           (s "Bob") [LF] true notify_example);
    try (split; [discriminate | repeat constructor]);
    try (apply field_chars_of_check; vm_compute; reflexivity); discriminate.
Defined.

Lemma to_u16_wrap32 (v : Z) : to_u16 (wrap32 v) = v mod 2 ^ 16.
Proof.
  unfold to_u16.
  assert (Hd : (2 ^ 16 | 2 ^ 32)) by (exists (2 ^ 16); reflexivity).
  rewrite <- (Z.mod_mod_divide (wrap32 v) (2 ^ 32) (2 ^ 16) Hd), wrap32_mod.
  apply Z.mod_mod_divide, Hd.
Qed.

(** X17.  On "+CMGS: <digits>" with [send_evt] the message reference
    stored for the SMS_SENT event is the number modulo 2^16 (a [uint16_t])
    and exactly one SMS_SENT event is sent; without [send_evt] the parser
    changes nothing at all. *)
Theorem cmgs_num (ds rest : cursor) (send_evt : bool) (n : gsm_notify_t) :
  dec_field ds -> GSM_CHARISNUM (cur rest) = false ->
  let n' := snd (gsmi_parse_cmgs (s "+CMGS: " ++ ds ++ rest) send_evt n) in
  if send_evt then
    cb_sms_sent_num (nt_cb n') = digits_value ds mod 2 ^ 16
    /\ nt_sent n' = nt_sent n ++ [GSM_CB_SMS_SENT] /\ nt_call n' = nt_call n
  else n' = n.
Proof.
  intros [Hne Hds] Hr. cbv zeta. unfold gsmi_parse_cmgs. cbv zeta.
  change (skip_prefix (s "+CMGS: " ++ ?x)) with x.
  rewrite parse_number_field by assumption. cbn [fst].
  destruct send_evt; cbn; [|reflexivity].
  rewrite to_u16_wrap32. repeat split.
Qed.

Lemma cmgs_num_witness :
  let n' := snd (gsmi_parse_cmgs (s "+CMGS: " ++ s "70000" ++ [CR; LF]) true notify_example) in
  if true then
    cb_sms_sent_num (nt_cb n') = digits_value (s "70000") mod 2 ^ 16
    /\ nt_sent n' = nt_sent notify_example ++ [GSM_CB_SMS_SENT]
    /\ nt_call n' = nt_call notify_example
  else n' = notify_example.
Proof.
  apply (cmgs_num (s "70000") [CR; LF] true notify_example);
    [split; [discriminate | repeat constructor] | reflexivity].
Defined.

Definition cpms_set_line (u1 t1 u2 t2 u3 t3 r : cursor) : cursor :=
  s "+CPMS: " ++ u1 ++ COMMA :: t1 ++ COMMA :: u2 ++ COMMA :: t2 ++ COMMA :: u3 ++ COMMA
  :: t3 ++ CR :: r.

Definition with_used_total (u t : cursor) (e : gsm_sms_mem_t) : gsm_sms_mem_t :=
  mk_sms_mem (mem_available e) (mem_current e) (wrap32 (digits_value u)) (wrap32 (digits_value t)).

(** X18.  Round trip of the +CPMS answer to a memory selection,
    "+CPMS: <used1>,<total1>,<used2>,<total2>,<used3>,<total3>": with
    option 2 the three SMS memory records receive the three (used, total)
    pairs in order, keep their available mask and current memory, and the
    parser returns 1. *)
Theorem cpms_set_roundtrip (map : list (list ascii * gsm_mem_t)) (unk : gsm_mem_t)
    (u1 t1 u2 t2 u3 t3 r : cursor) (g : gsm_t) (m0 m1 m2 : gsm_sms_mem_t) :
  dec_field u1 -> dec_field t1 -> dec_field u2 -> dec_field t2 -> dec_field u3 -> dec_field t3 ->
  sms_mem g = [m0; m1; m2] ->
  gsmi_parse_cpms map unk (cpms_set_line u1 t1 u2 t2 u3 t3 r) 2 g
  = Some (1, set_sms_mem [with_used_total u1 t1 m0; with_used_total u2 t2 m1;
                          with_used_total u3 t3 m2] g).
Proof.
  intros [H1 H1'] [H2 H2'] [H3 H3'] [H4 H4'] [H5 H5'] [H6 H6'] Hm.
  unfold gsmi_parse_cpms, cpms_set_line. cbv zeta.
  change (skip_prefix (s "+CPMS: " ++ ?x)) with x.
  change (2 =? 0) with false. change (2 =? 1) with false. change (2 =? 2) with true.
  cbv beta iota. rewrite Hm. cbn [cpms_set_loop].
  repeat (first [ rewrite parse_number_field by (auto; reflexivity) ];
          cbv beta iota; repeat change (skip_char COMMA (COMMA :: ?x)) with x).
  reflexivity.
Qed.

Definition sms_mem_blank : gsm_sms_mem_t := mk_sms_mem 0 0%nat 0 0.
Definition gsm_mem3 : gsm_t := set_sms_mem [sms_mem_blank; sms_mem_blank; sms_mem_blank] gsm_init.

Lemma cpms_set_roundtrip_witness :
  gsmi_parse_cpms mem_map_example 31%nat
    (cpms_set_line (s "3") (s "30") (s "0") (s "250") (s "12") (s "30") [LF]) 2 gsm_mem3
  = Some (1, set_sms_mem [with_used_total (s "3") (s "30") sms_mem_blank;
                          with_used_total (s "0") (s "250") sms_mem_blank;
                          with_used_total (s "12") (s "30") sms_mem_blank] gsm_mem3).
Proof.
  apply (cpms_set_roundtrip mem_map_example 31%nat (s "3") (s "30") (s "0") (s "250") (s "12")
           (s "30") [LF] gsm_mem3 sms_mem_blank sms_mem_blank sms_mem_blank);
    try (split; [discriminate | repeat constructor]); reflexivity.
Defined.

(** X19.  Round trip of "+CPBS: <used>,<total>" with option 2: the
    phonebook memory record receives the two numbers as used and total,
    keeps its available mask and current memory, and the parser returns 1. *)
Theorem cpbs_set_roundtrip (map : list (list ascii * gsm_mem_t)) (unk : gsm_mem_t)
    (u t r : cursor) (pm : gsm_sms_mem_t) :
  dec_field u -> dec_field t ->
  gsmi_parse_cpbs map unk (s "+CPBS: " ++ u ++ COMMA :: t ++ CR :: r) 2 pm
  = Some (1, with_used_total u t pm).
Proof.
  intros [H1 H1'] [H2 H2']. unfold gsmi_parse_cpbs. cbv zeta.
  change (skip_prefix (s "+CPBS: " ++ ?x)) with x.
  change (2 =? 0) with false. change (2 =? 1) with false. change (2 =? 2) with true.
  cbv beta iota.
  repeat (first [ rewrite parse_number_field by (auto; reflexivity) ];
          cbv beta iota; repeat change (skip_char COMMA (COMMA :: ?x)) with x).
  reflexivity.
Qed.

Lemma cpbs_set_roundtrip_witness :
  gsmi_parse_cpbs mem_map_example 31%nat (s "+CPBS: " ++ s "7" ++ COMMA :: s "250" ++ CR :: [LF])
    2 sms_mem_blank
  = Some (1, with_used_total (s "7") (s "250") sms_mem_blank).
Proof.
  apply (cpbs_set_roundtrip mem_map_example 31%nat (s "7") (s "250") [LF] sms_mem_blank);
    split; [discriminate | repeat constructor | discriminate | repeat constructor].
Defined.

(** No string end and no closing quote (a quote followed by a comma, CR
    or LF) in a text: the copy loop of [gsmi_parse_string] runs through
    it. *)
Fixpoint no_closing_quote (t : list ascii) : bool :=
  match t with
  | [] => true
  | c :: t' =>
      negb (Ascii.eqb c NUL) && negb (Ascii.eqb c QUOTE && is_field_end (cur t'))
      && no_closing_quote t'
  end.

Lemma field_end_cur_app_quote (t x : list ascii) :
  is_field_end (cur (t ++ QUOTE :: x)) = is_field_end (cur t).
Proof. destruct t; reflexivity. Qed.

Lemma loop_nodst_close (t : list ascii) (d : ascii) (r : cursor) (i k : nat) (trim : bool) :
  no_closing_quote t = true -> is_field_end d = true ->
  snd (parse_string_loop (t ++ QUOTE :: d :: r) false i k trim) = d :: r.
Proof.
  intros Ht Hd. induction t as [|c t IH]; cbn [app].
  - rewrite loop_field_end by exact Hd. reflexivity.
  - cbn [no_closing_quote] in Ht. apply andb_prop in Ht as [Ht Hrest].
    apply andb_prop in Ht as [Hn Hq]. apply negb_true_iff in Hn, Hq.
    cbn [parse_string_loop]. rewrite Hn, field_end_cur_app_quote, Hq.
    exact (IH Hrest).
Qed.

Lemma loop_nodst_open (t : list ascii) (i k : nat) (trim : bool) :
  no_closing_quote t = true -> snd (parse_string_loop t false i k trim) = [].
Proof.
  intros Ht. induction t as [|c t IH]; [reflexivity|].
  cbn [no_closing_quote] in Ht. apply andb_prop in Ht as [Ht Hrest].
  apply andb_prop in Ht as [Hn Hq]. apply negb_true_iff in Hn, Hq.
  cbn [parse_string_loop]. rewrite Hn, Hq. exact (IH Hrest).
Qed.

(** X20.  [gsmi_check_and_trim] on text that does not start with a quote,
    CR or comma skips it up to and including the next closing quote (a
    quote followed by a comma, CR or LF), stopping on the delimiter; quotes
    inside the text that are not followed by one of these are skipped over.
    When no closing quote follows, it consumes the whole rest of the
    string. *)
Theorem check_and_trim_unquoted (c : ascii) (t : list ascii) (d : ascii) (r : cursor) :
  no_closing_quote (c :: t) = true -> c <> QUOTE -> c <> CR -> c <> COMMA ->
  is_field_end d = true ->
  gsmi_check_and_trim (c :: t ++ QUOTE :: d :: r) = d :: r
  /\ gsmi_check_and_trim (c :: t) = [].
Proof.
  intros Hct Hq Hcr Hco Hd.
  unfold gsmi_check_and_trim, gsmi_parse_string. cbn [cur].
  rewrite (eqb_false_of_neq c QUOTE Hq), (eqb_false_of_neq c CR Hcr),
    (eqb_false_of_neq c COMMA Hco). cbn [negb andb].
  rewrite !(skip_char_id COMMA (c :: _)) by (cbn [cur]; apply eqb_false_of_neq; exact Hco).
  rewrite !(skip_char_id QUOTE (c :: _)) by (cbn [cur]; apply eqb_false_of_neq; exact Hq).
  split.
  - pose proof (loop_nodst_close (c :: t) d r 0 0 true Hct Hd) as H. cbn [app] in H.
    destruct (parse_string_loop _ false _ _ true). exact H.
  - pose proof (loop_nodst_open (c :: t) 0 0 true Hct) as H.
    destruct (parse_string_loop _ false _ _ true). exact H.
Qed.

(** A number field with a stray quote between its digits. *)
Definition stray_quote_text : list ascii := s "49" ++ QUOTE :: s "12".

Lemma check_and_trim_unquoted_witness :
  gsmi_check_and_trim ("+"%char :: stray_quote_text ++ QUOTE :: CR :: [LF]) = CR :: [LF]
  /\ gsmi_check_and_trim ("+"%char :: stray_quote_text) = [].
Proof.
  apply (check_and_trim_unquoted "+"%char stray_quote_text CR [LF]).
  - reflexivity.
  - cbv. discriminate.
  - cbv. discriminate.
  - cbv. discriminate.
  - reflexivity.
Defined.
